(** * GitHub trend analyzer: H-Index estimation, fetch strategies and
      time windows

    A shallow embedding of the algorithmic core of the repository:
    - [calculateHIndex]              (utils)
    - [fetchAndCalculateHIndexREST]  (services/githubService.js)
    - [fetchAndCalculateHIndexGraphQL]
    - [generateTimeWindows], [isLeapYear] (services/trendTrackerService.js)
    - [compareSearchTerms], [fetchTimeSeries], [processTimeSeriesData]
    - the id-keyed merge of [processSearchTerm] (js/App.js)

    Integers of the source are [Z] (scores, totals, years) or [nat]
    (array lengths, indices, the H-Index itself).  JavaScript objects used
    as string-keyed dictionaries are [gmap string _]; the insertion-ordered
    [Map] is an association list. *)

From Stdlib Require Import ZArith Lia Sorting.Sorted.
From stdpp Require Import base tactics option list sorting gmap strings pretty.

(** * The program *)

(** ** Data model *)

(** A repository id.  The REST transport yields numeric ids, the GraphQL
    transport opaque node-id strings; a [Map] never identifies a number
    with a string. *)
Inductive repo_id : Type :=
  | NumId (n : Z)
  | NodeId (s : string).

#[global] Instance repo_id_eq_dec : EqDecision repo_id.
Proof. solve_decision. Defined.

#[global] Instance repo_id_countable : Countable repo_id.
Proof.
  refine (inj_countable'
    (λ i, match i with NumId n => inl n | NodeId s => inr s end)
    (λ x, match x with inl n => NumId n | inr s => NodeId s end) _).
  by intros [].
Defined.

(** The fields of a repository object that the core reads. *)
Module Repo.
Record t : Type := mk {
  id : repo_id;
  full_name : string;
  stargazers_count : Z;
  forks_count : Z
}.
End Repo.

(** The [property] argument: ['stargazers_count'] or ['forks_count']. *)
Inductive property : Type :=
  | stargazers_count
  | forks_count.

(** [repo[property]] *)
Definition get (r : Repo.t) (p : property) : Z :=
  match p with
  | stargazers_count => Repo.stargazers_count r
  | forks_count => Repo.forks_count r
  end.

(** ** The index calculator *)

Module HIndex.

(** [[...repos].sort((a, b) => b[property] - a[property])]: a stable sort,
    descending by score.  [insert_desc] puts [x] in front of the first
    element whose score is not larger, so that equal scores keep the order
    of the input. *)
Fixpoint insert_desc (p : property) (x : Repo.t) (l : list Repo.t) : list Repo.t :=
  match l with
  | [] => [x]
  | y :: l' =>
      if (get x p <? get y p)%Z then y :: insert_desc p x l' else x :: l
  end.

Definition sort_desc (p : property) (l : list Repo.t) : list Repo.t :=
  foldr (insert_desc p) [] l.

(** The scanning loop, entered at index [i] with the running [hIndex]:
    [if (sortedRepos[i][property] >= i + 1) hIndex = i + 1; else break]. *)
Fixpoint scan (p : property) (sortedRepos : list Repo.t) (i hIndex : nat) : nat :=
  match sortedRepos with
  | [] => hIndex
  | r :: rest =>
      if (Z.of_nat (i + 1) <=? get r p)%Z
      then scan p rest (i + 1) (i + 1)
      else hIndex
  end.

Definition calculateHIndex (repos : list Repo.t) (p : property) : nat :=
  scan p (sort_desc p repos) 0 0.

(** Number of items whose score is at least [k]. *)
Definition count_ge (p : property) (k : Z) (repos : list Repo.t) : nat :=
  length (filter (λ r, (k ≤ get r p)%Z) repos).

(** [h] is the largest integer [k] such that at least [k] items score
    [>= k]. *)
Definition is_h_index (repos : list Repo.t) (p : property) (h : Z) : Prop :=
  (h ≤ Z.of_nat (count_ge p h repos))%Z ∧
  ∀ k : Z, (k ≤ Z.of_nat (count_ge p k repos))%Z → (k ≤ h)%Z.

(** Descending order of scores. *)
Definition desc (p : property) (x y : Repo.t) : Prop := (get y p ≤ get x p)%Z.

(** Items with the given star counts, for examples. *)
Definition scored (stars : list Z) : list Repo.t :=
  (λ n, Repo.mk (NumId n) "octo/repo" n 0) <$> stars.

End HIndex.

(** ** The REST fetch strategy (offset-paginated) *)

Module Rest.
Import HIndex.

(** The parsed body of a page: [data.total_count] and [data.items]
    (which may be absent). *)
Record page_data : Type := mkPage {
  total_count : Z;
  items : option (list Repo.t)
}.

(** What [await fetch(url)] gives: a response with [ok] set, a response
    with a failing status, or a rejected promise. *)
Inductive reply : Type :=
  | HttpOk (data : page_data)
  | HttpError (status : Z) (errorText : string)
  | Rejected (reason : string).

(** The exception that leaves the function. *)
Inductive error : Type :=
  | ApiError (status : Z) (errorText : string)
  | FetchFailure (reason : string).

(** The local variables of the loop. *)
Record state : Type := mkState {
  repos : list Repo.t;
  page : nat;
  currentHIndex : nat;
  hasMoreRepos : bool;
  reachedHIndex : bool;
  totalItems : Z
}.

(** The returned object [{ hIndex, repos, totalItems, totalFetched }]. *)
Record result : Type := mkResult {
  hIndex : nat;
  res_repos : list Repo.t;
  res_totalItems : Z;
  totalFetched : Z
}.

Inductive outcome : Type :=
  | Returned (r : result)
  | Threw (e : error)
  | OutOfFuel.

Definition perPage : nat := 100.

Definition init : state :=
  {| repos := []; page := 1; currentHIndex := 0; hasMoreRepos := true;
     reachedHIndex := false; totalItems := 0 |}.

(** [hasMoreRepos && page <= 10 && !reachedHIndex] *)
Definition loop_cond (s : state) : bool :=
  hasMoreRepos s && (page s <=? 10) && negb (reachedHIndex s).

(** [repos[currentHIndex-1][property] === currentHIndex].  The test is only
    evaluated after [currentHIndex] was raised above its former value, so
    the index is never [-1]; see [boundary_item_exists]. *)
Definition boundary_score_is (p : property) (rs : list Repo.t) (h : nat) : bool :=
  match rs !! (h - 1) with
  | Some r => (get r p =? Z.of_nat h)%Z
  | None => false
  end.

(** The body of the loop after [const data = await response.json()]. *)
Definition body (p : property) (s : state) (data : page_data) : state :=
  match items data with
  | Some (i :: its) =>
      let new_items := i :: its in
      let repos' := repos s ++ new_items in
      let tempHIndex := calculateHIndex repos' p in
      let '(cur, reached) :=
        if currentHIndex s <? tempHIndex then
          if (tempHIndex * 2 <=? length repos')
             && boundary_score_is p repos' tempHIndex
             && ((Z.of_nat (length repos') =? total_count data)%Z
                 || (tempHIndex * 3 <=? length repos'))
          then (tempHIndex, true)
          else (tempHIndex, reachedHIndex s)
        else if (perPage * 2 <=? length repos') && (tempHIndex =? currentHIndex s)
          then (currentHIndex s, true)
          else (currentHIndex s, reachedHIndex s) in
      {| repos := repos';
         page := page s + 1;
         currentHIndex := cur;
         hasMoreRepos := if length new_items <? perPage then false else hasMoreRepos s;
         reachedHIndex := reached;
         totalItems := total_count data |}
  | _ =>
      {| repos := repos s;
         page := page s + 1;
         currentHIndex := currentHIndex s;
         hasMoreRepos := false;
         reachedHIndex := reachedHIndex s;
         totalItems := total_count data |}
  end.

Definition finish (s : state) : result :=
  {| hIndex := currentHIndex s;
     res_repos := repos s;
     res_totalItems := totalItems s;
     totalFetched := Z.min (totalItems s) (Z.of_nat (length (repos s))) |}.

(** The [while] loop.  [upstream n] is the reply to the request for page
    [n]; the second component logs the page numbers requested. *)
Fixpoint loop (fuel : nat) (upstream : nat → reply) (p : property) (s : state)
  : outcome * list nat :=
  if loop_cond s then
    match fuel with
    | O => (OutOfFuel, [])
    | S fuel' =>
        match upstream (page s) with
        | HttpOk data =>
            let '(o, log) := loop fuel' upstream p (body p s data) in
            (o, page s :: log)
        | HttpError status errorText => (Threw (ApiError status errorText), [page s])
        | Rejected reason => (Threw (FetchFailure reason), [page s])
        end
    end
  else (Returned (finish s), []).

Definition fetchAndCalculateHIndexREST (fuel : nat) (upstream : nat → reply)
    (p : property) : outcome * list nat :=
  loop fuel upstream p init.

Definition terminated (o : outcome) : bool :=
  match o with OutOfFuel => false | _ => true end.

(** *** The tests of the loop body, on the states around a page *)

(** What [repos[k - 1]] reads of the accumulated list, for [k >= 1]: the
    item at position [k] in the order of arrival. *)
Definition item_at_position (rs : list Repo.t) (k : nat) : option Repo.t :=
  match k with
  | O => None
  | S k' => rs !! k'
  end.


(** The inner [if] test on the state after the page: at least
    [2 * currentHIndex] items, [repos[currentHIndex - 1]] scores exactly
    [currentHIndex], and the total count is reached or there are at least
    [3 * currentHIndex] items. *)
Definition boundary_test (p : property) (s' : state) : Prop :=
  2 * currentHIndex s' ≤ length (repos s') ∧
  (∃ r, item_at_position (repos s') (currentHIndex s') = Some r ∧
        get r p = Z.of_nat (currentHIndex s')) ∧
  (Z.of_nat (length (repos s')) = totalItems s' ∨
   3 * currentHIndex s' ≤ length (repos s')).

(** The page just read was not a full one: nothing more upstream. *)
Definition exhausted (data : page_data) : Prop :=
  match items data with
  | Some its => length its < perPage
  | None => True
  end.



(** What holds of every state a call reaches. *)
Record invariant (p : property) (s : state) : Prop := {
  inv_hindex : currentHIndex s = calculateHIndex (repos s) p;
  inv_page : 1 ≤ page s;
  inv_first : page s = 1 → repos s = [];
  inv_full : hasMoreRepos s = true → perPage * (page s - 1) ≤ length (repos s)
}.

(** The exception that a reply makes the call throw. *)
Definition reply_error (r : reply) : option error :=
  match r with
  | HttpOk _ => None
  | HttpError status errorText => Some (ApiError status errorText)
  | Rejected reason => Some (FetchFailure reason)
  end.

(** Sample pages of a query with 150 matches: a full first page whose 40
    best items have 40 stars each, and the 50 remaining items. *)
Definition star_item (stars n : Z) : Repo.t :=
  Repo.mk (NumId n) "octo/repo" stars 0.

Definition first_page : page_data :=
  {| total_count := 150;
     items := Some ((star_item 40 <$> seqZ 0 40) ++ (star_item 0 <$> seqZ 40 60)) |}.

Definition second_page : page_data :=
  {| total_count := 150; items := Some (star_item 0 <$> seqZ 100 50) |}.

End Rest.

(** ** The GraphQL fetch strategy (cursor-paginated) *)

Module GraphQL.
Import HIndex.

(** A node of [search.nodes], as the query selects it. *)
Record node : Type := mkNode {
  node_id : string;
  nameWithOwner : string;
  stargazerCount : Z;
  forkCount : Z
}.

Record pageInfo : Type := mkPageInfo {
  pi_hasNextPage : bool;
  pi_endCursor : option string
}.

(** [result.data.search] *)
Record search_data : Type := mkSearch {
  repositoryCount : Z;
  page_info : pageInfo;
  nodes : list node
}.

(** What a request gives: the search data, a body with an [errors] array
    (of which the first message is read), a failing status, or a rejected
    promise. *)
Inductive reply : Type :=
  | Data (searchData : search_data)
  | Errors (message : string)
  | HttpError (status : Z) (errorText : string)
  | Rejected (reason : string).

Inductive error : Type :=
  | ApiError (status : Z) (errorText : string)
  | GraphQLError (message : string)
  | FetchFailure (reason : string).

(** [searchData.nodes.map(node => ({ id: node.id, ... }))]: the node in
    the shape of a REST item. *)
Definition to_rest (n : node) : Repo.t :=
  {| Repo.id := NodeId (node_id n);
     Repo.full_name := nameWithOwner n;
     Repo.stargazers_count := stargazerCount n;
     Repo.forks_count := forkCount n |}.

(** The local variables of the loop. *)
Record state : Type := mkState {
  allRepos : list Repo.t;
  hasNextPage : bool;
  endCursor : option string;
  totalCount : Z
}.

Record result : Type := mkResult {
  hIndex : nat;
  repos : list Repo.t;
  totalItems : Z;
  totalFetched : nat
}.

Inductive outcome : Type :=
  | Returned (r : result)
  | Threw (e : error)
  | OutOfFuel.

Definition init : state :=
  {| allRepos := []; hasNextPage := true; endCursor := None; totalCount := 0 |}.

(** [endCursor ? `, after: "${endCursor}"` : ''] : an empty cursor is sent
    as no cursor. *)
Definition afterClause (s : state) : option string :=
  match endCursor s with
  | Some c => if decide (c = EmptyString) then None else Some c
  | None => None
  end.

(** The state after [allRepos = [...allRepos, ...repos]] and the update of
    the pagination variables. *)
Definition accumulate (s : state) (searchData : search_data) : state :=
  {| allRepos := allRepos s ++ map to_rest (nodes searchData);
     hasNextPage := pi_hasNextPage (page_info searchData);
     endCursor := pi_endCursor (page_info searchData);
     totalCount := repositoryCount searchData |}.

(** [allRepos.length >= currentHIndex * 3 && allRepos.length >= 100] *)
Definition found_enough (p : property) (s : state) : bool :=
  (calculateHIndex (allRepos s) p * 3 <=? length (allRepos s))
  && (100 <=? length (allRepos s)).

(** [allRepos.length >= 500] *)
Definition cap_reached (s : state) : bool := 500 <=? length (allRepos s).

Definition finish (p : property) (s : state) : result :=
  {| hIndex := calculateHIndex (allRepos s) p;
     repos := allRepos s;
     totalItems := totalCount s;
     totalFetched := length (allRepos s) |}.

(** The [while (hasNextPage)] loop.  [upstream n after] is the reply to the
    [n]-th request, sent with cursor [after].  The second component lists
    the states of the loop after each accumulation. *)
Fixpoint loop (fuel : nat) (upstream : nat → option string → reply)
    (p : property) (n : nat) (s : state) : outcome * list state :=
  if hasNextPage s then
    match fuel with
    | O => (OutOfFuel, [])
    | S fuel' =>
        match upstream n (afterClause s) with
        | Data searchData =>
            let s' := accumulate s searchData in
            if found_enough p s' then (Returned (finish p s'), [s'])
            else if cap_reached s' then (Returned (finish p s'), [s'])
            else
              let '(o, visited) := loop fuel' upstream p (n + 1) s' in
              (o, s' :: visited)
        | Errors message => (Threw (GraphQLError message), [])
        | HttpError status errorText => (Threw (ApiError status errorText), [])
        | Rejected reason => (Threw (FetchFailure reason), [])
        end
    end
  else (Returned (finish p s), []).

Definition fetchAndCalculateHIndexGraphQL (fuel : nat)
    (upstream : nat → option string → reply) (p : property)
  : outcome * list state :=
  loop fuel upstream p 0 init.

(** Every page holds at most 100 nodes ([first: 100]). *)
Definition pages_bounded (upstream : nat → option string → reply) : Prop :=
  ∀ n after searchData,
    upstream n after = Data searchData → length (nodes searchData) ≤ 100.

(** A page with fewer than 100 nodes is the last one. *)
Definition partial_is_last (upstream : nat → option string → reply) : Prop :=
  ∀ n after searchData,
    upstream n after = Data searchData →
    length (nodes searchData) < 100 →
    pi_hasNextPage (page_info searchData) = false.

(** A transport whose every page has 99 nodes of 1000 stars each and
    announces a next page. *)
Definition page_of_99 : search_data :=
  {| repositoryCount := 5000;
     page_info := {| pi_hasNextPage := true; pi_endCursor := Some "Y3Vyc29y" |};
     nodes := replicate 99 (mkNode "R_kgDO" "octo/repo" 1000 10) |}.

Definition pages_of_99 : nat → option string → reply := λ _ _, Data page_of_99.

(** The same with full pages of 100 nodes. *)
Definition page_of_100 : search_data :=
  {| repositoryCount := 5000;
     page_info := {| pi_hasNextPage := true; pi_endCursor := Some "Y3Vyc29y" |};
     nodes := replicate 100 (mkNode "R_kgDO" "octo/repo" 1000 10) |}.

Definition pages_of_100 : nat → option string → reply := λ _ _, Data page_of_100.

End GraphQL.

(** ** The time window generator *)

Module Windows.

(** A calendar date, as the three numbers that the template literals
    print. *)
Record date : Type := mkDate {
  year : Z;
  month : Z;
  day : Z
}.

(** A time window [{ start, end }]. *)
Record window : Type := mkWindow {
  w_start : date;
  w_end : date
}.

(** The readings of [new Date()] that the generator uses; [getMonth] counts
    from 0. *)
Record js_date : Type := mkJsDate {
  getFullYear : Z;
  getMonth : Z;
  getDate : Z
}.

(** [Math.ceil(a / b)] on integers, for a positive [b]. *)
Definition ceil_div (a b : Z) : Z := (- ((- a) / b))%Z.

(** [(year % 4 === 0 && year % 100 !== 0) || (year % 400 === 0)];
    [%] is the remainder that takes the sign of the dividend. *)
Definition isLeapYear (year : Z) : bool :=
  ((Z.rem year 4 =? 0)%Z && negb (Z.rem year 100 =? 0)%Z) || (Z.rem year 400 =? 0)%Z.

(** The expression for [endDay], written out twice in the source:
    [endMonth === 2 ? (isLeapYear(year) ? 29 : 28)
                    : [4, 6, 9, 11].includes(endMonth) ? 30 : 31]. *)
Definition endDay (year endMonth : Z) : Z :=
  if (endMonth =? 2)%Z then (if isLeapYear year then 29 else 28)%Z
  else if bool_decide (endMonth ∈ [4; 6; 9; 11]%Z) then 30%Z else 31%Z.

(** The three objects pushed onto [timeWindows]. *)
Definition year_window (year : Z) : window :=
  {| w_start := mkDate year 1 1; w_end := mkDate year 12 31 |}.

Definition quarter_window (year quarter : Z) : window :=
  let startMonth := ((quarter - 1) * 3 + 1)%Z in
  let endMonth := (quarter * 3)%Z in
  {| w_start := mkDate year startMonth 1;
     w_end := mkDate year endMonth (endDay year endMonth) |}.

Definition month_window (year month : Z) : window :=
  {| w_start := mkDate year month 1;
     w_end := mkDate year month (endDay year month) |}.

(** [for (let year = parseInt(startYear); year <= parseInt(endYear); year++)] *)
Definition years (startYear endYear : Z) : list Z :=
  seqZ startYear (endYear - startYear + 1).

(** [generateTimeWindows(startYear, endYear, granularity)], with the value
    of [new Date()] as an argument and the years already parsed. *)
Definition generateTimeWindows (currentDate : js_date) (startYear endYear : Z)
    (granularity : string) : list window :=
  let currentYear := getFullYear currentDate in
  let currentMonth := (getMonth currentDate + 1)%Z in
  let currentQuarter := ceil_div currentMonth 3 in
  if decide (granularity = "year") then
    year ← years startYear endYear;
    if decide (year = currentYear) then [] else [year_window year]
  else if decide (granularity = "quarter") then
    year ← years startYear endYear;
    quarter ← seqZ 1 4;
    (* year === currentYear && quarter >= currentQuarter *)
    if decide (year = currentYear ∧ (currentQuarter ≤ quarter)%Z) then []
    else [quarter_window year quarter]
  else if decide (granularity = "month") then
    year ← years startYear endYear;
    month ← seqZ 1 12;
    (* year === currentYear && month >= currentMonth *)
    if decide (year = currentYear ∧ (currentMonth ≤ month)%Z) then []
    else [month_window year month]
  else [].

(** [String(n).padStart(2, '0')] *)
Definition padStart2 (s : string) : string :=
  match String.length s with
  | 0 => "00"
  | 1 => "0" +:+ s
  | _ => s
  end.

(** The strings that the source stores in [start] and [end].  Months go
    through [padStart]; the literals [01], [12] and [31] of the templates
    are what the padding gives, and [endDay] has two digits already. *)
Definition iso (d : date) : string :=
  pretty (year d) +:+ "-" +:+ padStart2 (pretty (month d)) +:+ "-"
  +:+ padStart2 (pretty (day d)).

(** *** Calendar notions of the specification *)

(** The date that [new Date()] denotes. *)
Definition today (currentDate : js_date) : date :=
  mkDate (getFullYear currentDate) (getMonth currentDate + 1) (getDate currentDate).

(** Chronological order of dates. *)
Definition date_le (a b : date) : Prop :=
  (year a < year b ∨
   (year a = year b ∧
    (month a < month b ∨ (month a = month b ∧ day a ≤ day b))))%Z.

(** The span of the window includes the date (both ends inclusive). *)
Definition contains (w : window) (d : date) : Prop :=
  date_le (w_start w) d ∧ date_le d (w_end w).

(** Divisible by 4 and (not divisible by 100, or divisible by 400). *)
Definition leap_year_rule (y : Z) : Prop :=
  (4 | y)%Z ∧ (¬ (100 | y)%Z ∨ (400 | y)%Z).

(** [d] is the last day of month [m] of year [y]: 30 for April, June,
    September and November, 31 for the other months except February, and
    for February 29 in a leap year, else 28. *)
Definition last_day_of_month (y m d : Z) : Prop :=
  (1 ≤ m ≤ 12)%Z ∧
  (m ∈ [4; 6; 9; 11]%Z → d = 30%Z) ∧
  (m ∉ [4; 6; 9; 11]%Z → m ≠ 2%Z → d = 31%Z) ∧
  (m = 2%Z → (leap_year_rule y → d = 29%Z) ∧ (¬ leap_year_rule y → d = 28%Z)).

End Windows.

(** ** The comparative report builder: merging the two passes *)

Module Report.

(** A JavaScript [Map] from ids to items: its entries in insertion order. *)
Definition js_map : Type := list (repo_id * Repo.t).

(** [map.set(k, v)]: an existing key keeps its place and takes the new
    value, a new key goes to the end. *)
Fixpoint map_set (k : repo_id) (v : Repo.t) (m : js_map) : js_map :=
  match m with
  | [] => [(k, v)]
  | (k', v') :: m' =>
      if decide (k = k') then (k, v) :: m' else (k', v') :: map_set k v m'
  end.

(** [new Map(entries)] sets the entries one after the other. *)
Definition new_Map (entries : list (repo_id * Repo.t)) : js_map :=
  foldl (λ m e, map_set e.1 e.2 m) [] entries.

(** [[...map.values()]] *)
Definition values (m : js_map) : list Repo.t := m.*2.

(** [repo => [repo.id, repo]] *)
Definition entry (repo : Repo.t) : repo_id * Repo.t := (Repo.id repo, repo).

(** [[...new Map([...starResult.repos, ...forkResult.repos]
                  .map(repo => [repo.id, repo])).values()]] *)
Definition allRepos (starRepos forkRepos : list Repo.t) : list Repo.t :=
  values (new_Map (entry <$> (starRepos ++ forkRepos))).

(** The ids of a list of items, as a list and as a set. *)
Definition ids (l : list Repo.t) : list repo_id := Repo.id <$> l.

Definition id_set (l : list Repo.t) : gset repo_id := list_to_set (ids l).

(** The number of ids that two lists share. *)
Definition common_ids (A B : list Repo.t) : nat := size (id_set A ∩ id_set B).

(** Sample items: [repo_b_star] and [repo_b_fork] are one repository as the
    two passes saw it. *)
Definition repo_a : Repo.t := Repo.mk (NumId 1) "octo/alpha" 50 7.
Definition repo_b_star : Repo.t := Repo.mk (NumId 2) "octo/beta" 40 9.
Definition repo_b_fork : Repo.t := Repo.mk (NumId 2) "octo/beta" 41 9.
Definition repo_c : Repo.t := Repo.mk (NumId 3) "octo/gamma" 3 30.

End Report.

(** ** The trend aggregator *)

Module Trend.

(** A time window as the aggregator receives it: two date strings. *)
Record time_window : Type := mkTimeWindow {
  tw_start : string;
  tw_end : string
}.

Definition of_window (w : Windows.window) : time_window :=
  {| tw_start := Windows.iso (Windows.w_start w);
     tw_end := Windows.iso (Windows.w_end w) |}.

(** A point of a time series; a count is present when the reply has the
    alias of its sub-query. *)
Record timePoint : Type := mkTimePoint {
  period : string;
  startDate : string;
  endDate : string;
  repositoryCount : option Z;
  prCount : option Z;
  issueCount : option Z
}.

(** The parsed body of a reply: the message of the first entry of
    [errors], when the body has that array, and [data], which maps the alias
    of each sub-query to the count found under it. *)
Record graphql_body : Type := mkBody {
  errors : option string;
  data : gmap string Z
}.

Inductive reply : Type :=
  | HttpOk (body : graphql_body)
  | HttpError (status : Z) (errorText : string)
  | Rejected (reason : string).

(** What determines the request of [fetchTimeSeries]: the query string is
    built from the term, the windows and the metric, the header from the
    token. *)
Record request : Type := mkRequest {
  req_term : string;
  req_windows : list time_window;
  req_metric : string;
  req_token : string
}.

(** A thrown [Error], by its [message]. *)
Record error : Type := mkError { message : string }.

(** What is assigned to [results[term]]: the series of the term, or
    [{ error: error.message }]; an object in both cases. *)
Inductive slot : Type :=
  | Series (termData : list timePoint)
  | Failure (error_message : string).

(** The result object [results], a plain object made by [{}].  [own] holds
    its own properties: what [Object.keys] enumerates and what a reader finds
    under one of these keys (the order of the keys is not kept).  [proto] is
    the object that an assignment to ["__proto__"] made its prototype, [None]
    while the prototype is still [Object.prototype]. *)
Record js_object : Type := mkObject {
  own : gmap string slot;
  proto : option slot
}.

(** [{}] *)
Definition empty_object : js_object := {| own := ∅; proto := None |}.

(** [results[term] = v], for an object [v].  The name ["__proto__"] is the
    accessor that every plain object inherits from [Object.prototype]: its
    setter makes [v] the prototype of [results] and adds no property.  Any
    other name becomes, or stays, an own property that holds [v]. *)
Definition assign (term : string) (v : slot) (results : js_object) : js_object :=
  if decide (term = "__proto__")
  then {| own := own results; proto := Some v |}
  else {| own := <[term := v]> (own results); proto := proto results |}.

(** [Object.keys(results)], as a set. *)
Definition Object_keys (results : js_object) : gset string := dom (own results).

(** [!githubToken] is false only for a non-empty string. *)
Definition has_token (githubToken : option string) : option string :=
  match githubToken with
  | Some t => if decide (t = EmptyString) then None else Some t
  | None => None
  end.

Section Aggregator.
(** [formatPeriodLabel] renders dates in the locale of the browser; it is
    a parameter here. *)
Context (formatPeriodLabel : time_window → string).

(** [upstream n req] is the reply to request [req] when [n] requests were
    made before it. *)
Context (upstream : nat → request → reply).

(** [processTimeSeriesData(data, timeWindows, metric)] *)
Definition processTimeSeriesData (data : gmap string Z)
    (timeWindows : list time_window) (metric : string) : list timePoint :=
  imap (λ index window,
    let periodAlias := "period" +:+ pretty index in
    {| period := formatPeriodLabel window;
       startDate := tw_start window;
       endDate := tw_end window;
       repositoryCount := data !! periodAlias;
       prCount := data !! (periodAlias +:+ "_prs");
       issueCount := data !! (periodAlias +:+ "_issues") |}) timeWindows.

(** [fetchTimeSeries(searchTerm, timeWindows, githubToken, metric)], run
    after [n] requests: the series or the exception, and the number of
    requests made so far. *)
Definition fetchTimeSeries (n : nat) (searchTerm : string)
    (timeWindows : list time_window) (githubToken : option string)
    (metric : string) : (list timePoint + error) * nat :=
  match has_token githubToken with
  | None =>
      (inr (mkError "GitHub token is required for time trend analysis"), n)
  | Some token =>
      let req := mkRequest searchTerm timeWindows metric token in
      match upstream n req with
      | Rejected reason => (inr (mkError reason), S n)
      | HttpError status errorText =>
          (inr (mkError ("GitHub GraphQL API returned " +:+ pretty status
                         +:+ ": " +:+ errorText)), S n)
      | HttpOk body =>
          match errors body with
          | Some first_message =>
              (inr (mkError ("GraphQL Error: " +:+ first_message)), S n)
          | None =>
              (inl (processTimeSeriesData (data body) timeWindows metric), S n)
          end
      end
  end.

(** The [try]/[catch] around the fetch of one term. *)
Definition slot_of (r : list timePoint + error) : slot :=
  match r with
  | inl termData => Series termData
  | inr e => Failure (message e)
  end.

(** [for (const term of searchTerms) { ... results[term] = ... }] *)
Fixpoint for_each_term (searchTerms : list string) (n : nat)
    (timeWindows : list time_window) (metric : string)
    (githubToken : option string) (results : js_object)
  : js_object :=
  match searchTerms with
  | [] => results
  | term :: rest =>
      let '(r, n') := fetchTimeSeries n term timeWindows githubToken metric in
      for_each_term rest n' timeWindows metric githubToken
                    (assign term (slot_of r) results)
  end.

(** [compareSearchTerms(searchTerms, timeWindows, metric, githubToken)] *)
Definition compareSearchTerms (searchTerms : list string)
    (timeWindows : list time_window) (metric : string)
    (githubToken : option string) : js_object :=
  for_each_term searchTerms 0 timeWindows metric githubToken empty_object.

(** The number of requests made before the term at position [i]. *)
Definition requests_before (githubToken : option string) (i : nat) : nat :=
  match has_token githubToken with
  | Some _ => i
  | None => 0
  end.
End Aggregator.

(** A transport that answers 502 for the term [A] and a count of 12 for the
    single window of any other term. *)
Definition upstream_A_fails : nat → request → reply :=
  λ _ req,
    if decide (req_term req = "A") then HttpError 502 "Bad Gateway"
    else HttpOk {| errors := None; data := {[ "period0" := 12%Z ]} |}.

Definition year_2024 : list time_window := [mkTimeWindow "2024-01-01" "2024-12-31"].

(** A transport that answers 502 for the term [__proto__] and a count of 12
    for the single window of any other term. *)
Definition upstream_proto_fails : nat → request → reply :=
  λ _ req,
    if decide (req_term req = "__proto__") then HttpError 502 "Bad Gateway"
    else HttpOk {| errors := None; data := {[ "period0" := 12%Z ]} |}.

End Trend.

(** ** Pages read by the REST strategy *)

Module RestPages.
Import Rest.

(** The items that a reply adds to [repos]. *)
Definition page_items (r : reply) : list Repo.t :=
  match r with
  | HttpOk data => default [] (items data)
  | _ => []
  end.

(** No page of the upstream holds more than [n] items ([per_page]). *)
Definition pages_within (n : nat) (upstream : nat → reply) : Prop :=
  ∀ k data its,
    upstream k = HttpOk data → items data = Some its → length its ≤ n.

(** An upstream of 250 matches, 1000 stars each: two full pages and a
    half. *)
Definition three_pages : nat → reply := λ k,
  HttpOk {| total_count := 250;
            items := Some (star_item 1000 <$>
                             seqZ (100 * Z.of_nat k) (if k <=? 2 then 100 else 50)) |}.

End RestPages.

(** ** The early-termination policy of the REST strategy, as specified *)

Module RestPolicy.
Import HIndex Rest RestPages.

(** The items of the pages 1 to [n], in the order of arrival. *)
Definition fetched (upstream : nat → reply) (n : nat) : list Repo.t :=
  seq 1 n ≫= λ k, page_items (upstream k).

(** The total number of matches that the reply to page [k] announces. *)
Definition total_matches (upstream : nat → reply) (k : nat) : Z :=
  match upstream k with
  | HttpOk data => total_count data
  | _ => 0%Z
  end.

(** The items arrive in descending order of the score, as the request
    ([sort], [order=desc]) asks of the upstream: the pages that a call can
    read, ten at most, are in descending order when put together. *)
Definition arrives_sorted (p : property) (upstream : nat → reply) : Prop :=
  ∀ n, n ≤ 10 → StronglySorted (desc p) (fetched upstream n).

(** The item at rank [k] by descending score; ranks start at 1. *)
Definition item_at_rank (p : property) (rs : list Repo.t) (k : nat)
    : option Repo.t :=
  match k with
  | O => None
  | S k' => sort_desc p rs !! k'
  end.

(** (a) the H-Index did not increase with page [k], after accumulating at
    least 200 items. *)
Definition stabilized (p : property) (upstream : nat → reply) (k : nat) : Prop :=
  ¬ (calculateHIndex (fetched upstream (k - 1)) p
     < calculateHIndex (fetched upstream k) p) ∧
  200 ≤ length (fetched upstream k).

(** (b) after page [k] the accumulated set contains at least
    [2 * currentHIndex] items, the item at rank [currentHIndex] scores
    exactly [currentHIndex], and all upstream matches have been fetched or
    the set has at least [3 * currentHIndex] items. *)
Definition boundary_reached (p : property) (upstream : nat → reply) (k : nat)
    : Prop :=
  let accumulated := fetched upstream k in
  let currentHIndex := calculateHIndex accumulated p in
  2 * currentHIndex ≤ length accumulated ∧
  (∃ r, item_at_rank p accumulated currentHIndex = Some r ∧
        get r p = Z.of_nat currentHIndex) ∧
  (Z.of_nat (length accumulated) = total_matches upstream k ∨
   3 * currentHIndex ≤ length accumulated).

(** Page [k] was the last one under the page cap. *)
Definition page_cap_reached (k : nat) : Prop := 10 ≤ k.

(** Page [k] came back with fewer items than a full page. *)
Definition upstream_exhausted (upstream : nat → reply) (k : nat) : Prop :=
  length (page_items (upstream k)) < perPage.

(** The policy says to fetch no page after page [k]. *)
Definition policy_stops (p : property) (upstream : nat → reply) (k : nat) : Prop :=
  stabilized p upstream k ∨ boundary_reached p upstream k ∨
  page_cap_reached k ∨ upstream_exhausted upstream k.

(** *** Sample upstreams *)

(** [n] items of [stars] stars each, with ids from [first] on. *)
Definition items_of (stars first n : Z) : list Repo.t :=
  star_item stars <$> seqZ first n.

(** 1000 matches, the first hundred with 1000 stars each and none with a
    star after them. *)
Definition flat_after_first : nat → reply := λ k,
  HttpOk {| total_count := 1000;
            items := Some (if k =? 1 then items_of 1000 0 100
                           else items_of 0 (100 * (Z.of_nat k - 1)) 100) |}.

(** 500 matches, thirty with 30 stars each and none with a star after
    them. *)
Definition thirty_of_thirty : nat → reply := λ k,
  HttpOk {| total_count := 500;
            items := Some (if k =? 1 then items_of 30 0 30 ++ items_of 0 30 70
                           else items_of 0 (100 * (Z.of_nat k - 1)) 100) |}.

(** 500 matches whose first page is not in the order of its stars: 5, 2
    and 5 stars, then none. *)
Definition out_of_order : nat → reply := λ k,
  HttpOk {| total_count := 500;
            items := Some (if k =? 1
                           then [star_item 5 0; star_item 2 1; star_item 5 2]
                                ++ items_of 0 3 97
                           else items_of 0 (100 * (Z.of_nat k - 1)) 100) |}.

End RestPolicy.

(** ** Transports seen by the GraphQL strategy *)

Module GraphQLPages.
Import GraphQL.

(** Every page that announces a next page holds at least [m] nodes. *)
Definition pages_at_least (m : nat) (upstream : nat → option string → reply) : Prop :=
  ∀ n after searchData,
    upstream n after = Data searchData →
    pi_hasNextPage (page_info searchData) = true →
    m ≤ length (nodes searchData).

(** Every reply is a page without nodes that announces a next page. *)
Definition stalls (upstream : nat → option string → reply) : Prop :=
  ∀ n after, ∃ searchData,
    upstream n after = Data searchData ∧
    nodes searchData = [] ∧
    pi_hasNextPage (page_info searchData) = true.

Definition empty_pages : nat → option string → reply := λ _ _,
  Data {| repositoryCount := 0;
          page_info := {| pi_hasNextPage := true; pi_endCursor := None |};
          nodes := [] |}.

(** The exception that a reply makes the call throw. *)
Definition reply_error (r : reply) : option error :=
  match r with
  | Data _ => None
  | Errors message => Some (GraphQLError message)
  | HttpError status errorText => Some (ApiError status errorText)
  | Rejected reason => Some (FetchFailure reason)
  end.

Definition ended (o : outcome) : bool :=
  match o with OutOfFuel => false | _ => true end.

(** Why the loop was left after the accumulation that gave state [s]. *)
Definition stop_reason (p : property) (s : state) : Prop :=
  hasNextPage s = false ∨
  (100 ≤ length (allRepos s) ∧
   3 * HIndex.calculateHIndex (allRepos s) p ≤ length (allRepos s)) ∨
  500 ≤ length (allRepos s).

End GraphQLPages.

(** ** Order of windows *)

Module Calendar.
Import Windows.

(** Strict chronological order of dates. *)
Definition date_lt (a b : date) : Prop :=
  (year a < year b ∨
   (year a = year b ∧
    (month a < month b ∨ (month a = month b ∧ day a < day b))))%Z.

(** The first window ends before the second one starts. *)
Definition precedes (w1 w2 : window) : Prop := date_lt (w_end w1) (w_start w2).

(** A window that starts on the first of a month and ends, not earlier, in
    the same year. *)
Definition well_formed (w : window) : Prop :=
  date_le (w_start w) (w_end w) ∧
  day (w_start w) = 1%Z ∧
  year (w_start w) = year (w_end w).

End Calendar.

(** ** Reading windows back: granularity and labels *)

Module Labels.
Import Windows Trend.

Section Platform.
(** [new Date(s)], by the readings of [getFullYear], [getMonth] and
    [getDate] in the time zone of the browser. *)
Context (Date : string → js_date).

(** [date.toLocaleString('default', { month: 'short' })], by the month read,
    and [date.toLocaleDateString()]. *)
Context (monthShort : Z → string) (toLocaleDateString : js_date → string).

(** [getGranularityFromWindows(timeWindows)] *)
Definition getGranularityFromWindows (timeWindows : list time_window) : string :=
  match timeWindows with
  | [] => "unknown"
  | window :: _ =>
      let start := Date (tw_start window) in
      let end_ := Date (tw_end window) in
      if ((getMonth start =? 0) && (getDate start =? 1)
          && (getMonth end_ =? 11) && (getDate end_ =? 31)
          && (getFullYear start =? getFullYear end_))%Z
      then "year"
      else
        let monthDiff :=
          ((getFullYear end_ - getFullYear start) * 12
           + getMonth end_ - getMonth start)%Z in
        if ((monthDiff =? 2) && (getDate start =? 1))%Z then "quarter"
        else if ((getFullYear start =? getFullYear end_)
                 && (getMonth start =? getMonth end_)
                 && (getDate start =? 1))%Z
        then "month"
        else "custom"
  end.

(** [formatPeriodLabel(window)]; [Math.floor(m / 3)] is [m / 3]. *)
Definition formatPeriodLabel (window : time_window) : string :=
  let startDate := Date (tw_start window) in
  let endDate := Date (tw_end window) in
  if ((getFullYear startDate =? getFullYear endDate)
      && (getMonth startDate =? getMonth endDate))%Z
  then monthShort (getMonth startDate) +:+ " " +:+ pretty (getFullYear startDate)
  else if ((getFullYear startDate =? getFullYear endDate)
           && (getMonth startDate / 3 =? getMonth endDate / 3))%Z
  then
    let quarter := (getMonth startDate / 3 + 1)%Z in
    "Q" +:+ pretty quarter +:+ " " +:+ pretty (getFullYear startDate)
  else if ((getMonth startDate =? 0) && (getDate startDate =? 1)
           && (getMonth endDate =? 11) && (getDate endDate =? 31))%Z
  then pretty (getFullYear startDate)
  else toLocaleDateString startDate +:+ " - " +:+ toLocaleDateString endDate.

(** The date string is read back as the calendar date it spells: so it is
    in the time zones at or east of Greenwich, where the UTC midnight that
    [new Date('YYYY-MM-DD')] denotes falls on the same day. *)
Definition reads_back (d : date) : Prop :=
  Date (iso d) = mkJsDate (year d) (month d - 1) (day d).
End Platform.

(** A [Date] that knows the two ends of 2024. *)
Definition Date_2024 : string → js_date := λ s,
  if decide (s = "2024-01-01") then mkJsDate 2024 0 1
  else if decide (s = "2024-12-31") then mkJsDate 2024 11 31
  else mkJsDate 1970 0 1.

End Labels.

(** ** The batched query of [fetchTimeSeries] *)

Module Batch.
Import Trend.

Inductive search_type : Type := REPOSITORY | ISSUE.

(** One aliased [search(...)] of the query string:
    [alias: search(query: "...", type: ..., first: 0) { count }]. *)
Record subquery : Type := mkSub {
  sq_alias : string;
  sq_query : string;
  sq_type : search_type
}.

(** [`period${index}`] *)
Definition periodAlias (index : nat) : string := "period" +:+ pretty index.

(** [`${searchTerm} created:${window.start}..${window.end}`] *)
Definition baseQuery (searchTerm : string) (window : time_window) : string :=
  searchTerm +:+ " created:" +:+ tw_start window +:+ ".." +:+ tw_end window.

Definition repo_subquery (searchTerm : string) (index : nat) (window : time_window)
  : subquery :=
  mkSub (periodAlias index) (baseQuery searchTerm window) REPOSITORY.

Definition prs_subquery (searchTerm : string) (index : nat) (window : time_window)
  : subquery :=
  mkSub (periodAlias index +:+ "_prs") (baseQuery searchTerm window +:+ " is:pr") ISSUE.

Definition issues_subquery (searchTerm : string) (index : nat) (window : time_window)
  : subquery :=
  mkSub (periodAlias index +:+ "_issues")
        (baseQuery searchTerm window +:+ " is:issue") ISSUE.

(** [metric === 'prs' || metric === 'all'] and
    [metric === 'issues' || metric === 'all'] *)
Definition wants_prs (metric : string) : Prop := metric = "prs" ∨ metric = "all".
Definition wants_issues (metric : string) : Prop := metric = "issues" ∨ metric = "all".

(** What one round of [timeWindows.forEach] adds to the query string. *)
Definition window_subqueries (searchTerm metric : string) (index : nat)
    (window : time_window) : list subquery :=
  [repo_subquery searchTerm index window]
  ++ (if decide (wants_prs metric) then [prs_subquery searchTerm index window] else [])
  ++ (if decide (wants_issues metric)
      then [issues_subquery searchTerm index window] else []).

(** The sub-queries of the whole query string, in order. *)
Definition subqueries (searchTerm : string) (timeWindows : list time_window)
    (metric : string) : list subquery :=
  mjoin (imap (window_subqueries searchTerm metric) timeWindows).

(** The [data] of a reply that answers every sub-query under its alias;
    [count] is what the upstream finds for a sub-query. *)
Definition answer (count : subquery → Z) (batch : list subquery) : gmap string Z :=
  list_to_map ((λ sq, (sq_alias sq, count sq)) <$> batch).

(** Decimal digits. *)
Definition is_digit (c : Ascii.ascii) : bool :=
  match Ascii.is_nat c with Some _ => true | None => false end.

Fixpoint all_digits (s : string) : bool :=
  match s with
  | EmptyString => true
  | String c s' => is_digit c && all_digits s'
  end.

(** The empty string, or one that does not start with a digit. *)
Definition no_leading_digit (s : string) : Prop :=
  match s with
  | EmptyString => True
  | String c _ => is_digit c = false
  end.

(** The message of the error that [fetchTimeSeries] throws without a
    token. *)
Definition token_required : string :=
  "GitHub token is required for time trend analysis".

End Batch.

(** ** The windowed H-Index *)

Module Windowed.
Import HIndex.

(** The local variables of the loop of [calculateWindowedHIndex]. *)
Record state : Type := mkState {
  allRepos : list Repo.t;
  hasNextPage : bool;
  endCursor : option string
}.

Inductive outcome : Type :=
  | Returned (hIndex : nat)
  | Threw (message : string)
  | OutOfFuel.

(** [{ id: node.id, stargazers_count: node.stargazerCount,
       forks_count: node.forkCount }]: the query asks for no name. *)
Definition to_scores (n : GraphQL.node) : Repo.t :=
  {| Repo.id := NodeId (GraphQL.node_id n);
     Repo.full_name := EmptyString;
     Repo.stargazers_count := GraphQL.stargazerCount n;
     Repo.forks_count := GraphQL.forkCount n |}.

Definition init : state :=
  {| allRepos := []; hasNextPage := true; endCursor := None |}.

Definition afterClause (s : state) : option string :=
  match endCursor s with
  | Some c => if decide (c = EmptyString) then None else Some c
  | None => None
  end.

Definition accumulate (s : state) (searchData : GraphQL.search_data) : state :=
  {| allRepos := allRepos s ++ (to_scores <$> GraphQL.nodes searchData);
     hasNextPage := GraphQL.pi_hasNextPage (GraphQL.page_info searchData);
     endCursor := GraphQL.pi_endCursor (GraphQL.page_info searchData) |}.
Arguments accumulate : simpl never.

(** [allRepos.length >= 1000] *)
Definition cap_reached (s : state) : bool := 1000 <=? length (allRepos s).

(** The [while (hasNextPage)] loop, with the states after each
    accumulation; the only way out besides the cursor is the cap. *)
Fixpoint loop (fuel : nat) (upstream : nat → option string → GraphQL.reply)
    (p : property) (n : nat) (s : state) : outcome * list state :=
  if hasNextPage s then
    match fuel with
    | O => (OutOfFuel, [])
    | S fuel' =>
        match upstream n (afterClause s) with
        | GraphQL.Data searchData =>
            let s' := accumulate s searchData in
            if cap_reached s'
            then (Returned (calculateHIndex (allRepos s') p), [s'])
            else
              let '(o, visited) := loop fuel' upstream p (n + 1) s' in
              (o, s' :: visited)
        | GraphQL.Errors message => (Threw ("GraphQL Error: " +:+ message), [])
        | GraphQL.HttpError status _ =>
            (Threw ("GitHub GraphQL API returned " +:+ pretty status), [])
        | GraphQL.Rejected reason => (Threw reason, [])
        end
    end
  else (Returned (calculateHIndex (allRepos s) p), []).

(** [calculateWindowedHIndex(searchTerm, startDate, endDate, property,
    githubToken)], against the transport that answers its requests. *)
Definition calculateWindowedHIndex (fuel : nat)
    (upstream : nat → option string → GraphQL.reply) (p : property)
    (githubToken : option string) : outcome * list state :=
  match Trend.has_token githubToken with
  | None => (Threw "GitHub token is required for windowed H-Index calculation", [])
  | Some _ => loop fuel upstream p 0 init
  end.

End Windowed.

(** ** The service entry points *)

Module Service.
Import HIndex.

(** The object that either strategy returns. *)
Record hindex_result : Type := mkHResult {
  hIndex : nat;
  repos : list Repo.t;
  totalItems : Z;
  totalFetched : Z
}.

Inductive outcome (A : Type) : Type :=
  | Returned (a : A)
  | Threw (message : string)
  | OutOfFuel.
Arguments Returned {A} a.
Arguments Threw {A} message.
Arguments OutOfFuel {A}.

(** The [message] of the errors of the two strategies. *)
Definition rest_message (e : Rest.error) : string :=
  match e with
  | Rest.ApiError status errorText =>
      "GitHub API returned " +:+ pretty status +:+ ": " +:+ errorText
  | Rest.FetchFailure reason => reason
  end.

Definition graphql_message (e : GraphQL.error) : string :=
  match e with
  | GraphQL.ApiError status errorText =>
      "GitHub GraphQL API returned " +:+ pretty status +:+ ": " +:+ errorText
  | GraphQL.GraphQLError message => "GraphQL Error: " +:+ message
  | GraphQL.FetchFailure reason => reason
  end.

(** [fetchAndCalculateHIndex]: GraphQL with a token, REST without; an
    error of the strategy is thrown on. *)
Definition fetchAndCalculateHIndex (fuel : nat)
    (rest : nat → Rest.reply) (graphql : nat → option string → GraphQL.reply)
    (p : property) (githubToken : option string) : outcome hindex_result :=
  match Trend.has_token githubToken with
  | Some _ =>
      match fst (GraphQL.fetchAndCalculateHIndexGraphQL fuel graphql p) with
      | GraphQL.Returned r =>
          Returned {| hIndex := GraphQL.hIndex r;
                      repos := GraphQL.repos r;
                      totalItems := GraphQL.totalItems r;
                      totalFetched := Z.of_nat (GraphQL.totalFetched r) |}
      | GraphQL.Threw e => Threw (graphql_message e)
      | GraphQL.OutOfFuel => OutOfFuel
      end
  | None =>
      match fst (Rest.fetchAndCalculateHIndexREST fuel rest p) with
      | Rest.Returned r =>
          Returned {| hIndex := Rest.hIndex r;
                      repos := Rest.res_repos r;
                      totalItems := Rest.res_totalItems r;
                      totalFetched := Rest.totalFetched r |}
      | Rest.Threw e => Threw (rest_message e)
      | Rest.OutOfFuel => OutOfFuel
      end
  end.

(** The parsed body of a reply to a count request: whether it has an
    [errors] member, [data.search.discussionCount] and [total_count], each
    possibly absent. *)
Record count_body : Type := mkCountBody {
  has_errors : bool;
  discussionCount : option Z;
  total_count : option Z
}.

Inductive count_reply : Type :=
  | CountOk (body : count_body)
  | CountNotOk (status : Z)
  | CountRejected (reason : string).

(** [x || 0] on a count that may be absent. *)
Definition or_zero (x : option Z) : Z := default 0%Z x.

(** [getTotalCount(searchTerm, dateLimit, itemType, githubToken)];
    [transport itemType token] is the reply to the one request that the
    item type and the token determine. *)
Definition getTotalCount (transport : string → option string → count_reply)
    (itemType : string) (githubToken : option string) : Z + string :=
  if decide (itemType = "discussions") then
    match Trend.has_token githubToken with
    | None => inl 0%Z
    | Some token =>
        match transport itemType (Some token) with
        | CountRejected _ => inl 0%Z
        | CountNotOk _ => inl 0%Z
        | CountOk body =>
            if has_errors body then inl 0%Z
            else inl (or_zero (discussionCount body))
        end
    end
  else if decide (itemType = "repositories" ∨ itemType = "pull_requests") then
    match transport itemType (Trend.has_token githubToken) with
    | CountRejected _ => inl 0%Z
    | CountNotOk _ => inl 0%Z
    | CountOk body => inl (or_zero (total_count body))
    end
  else inr ("Unknown item type: " +:+ itemType).

Definition known_item_types : list string :=
  ["repositories"; "pull_requests"; "discussions"].

End Service.

(** ** The report of one search term and the search handler *)

Module App.
Import HIndex Service.

(** [[...allRepos].sort((a, b) => b.f - a.f).slice(0, 10)] *)
Definition top10 (p : property) (allRepos : list Repo.t) : list Repo.t :=
  take 10 (sort_desc p allRepos).

(** The object that [processSearchTermForHIndex] returns. *)
Record report : Type := mkReport {
  searchTerm : string;
  starHIndex : nat;
  forkHIndex : nat;
  totalRepos : Z;
  analyzedRepos : nat;
  totalPRs : Z;
  totalDiscussions : Z;
  topStarredRepos : list Repo.t;
  topForkedRepos : list Repo.t;
  githubToken : bool
}.

(** The upstream as the requests of one search see it: the replies to the
    ranked fetch of a term by a property, over either transport, and the
    replies to the count requests of a term. *)
Record world : Type := mkWorld {
  rest : string → property → nat → Rest.reply;
  graphql : string → property → nat → option string → GraphQL.reply;
  counts : string → string → option string → count_reply
}.

(** [processSearchTermForHIndex(term)] *)
Definition processSearchTermForHIndex (fuel : nat) (w : world)
    (token : option string) (term : string) : outcome report :=
  match fetchAndCalculateHIndex fuel (rest w term stargazers_count)
          (graphql w term stargazers_count) stargazers_count token with
  | Returned starResult =>
      match fetchAndCalculateHIndex fuel (rest w term forks_count)
              (graphql w term forks_count) forks_count token with
      | Returned forkResult =>
          let allRepos := Report.allRepos (repos starResult) (repos forkResult) in
          match getTotalCount (counts w term) "repositories" token,
                getTotalCount (counts w term) "pull_requests" token,
                getTotalCount (counts w term) "discussions" token with
          | inl totalReposCount, inl totalPRsCount, inl totalDiscussionsCount =>
              Returned
                {| searchTerm := term;
                   starHIndex := hIndex starResult;
                   forkHIndex := hIndex forkResult;
                   totalRepos := totalReposCount;
                   analyzedRepos := length allRepos;
                   totalPRs := totalPRsCount;
                   totalDiscussions := totalDiscussionsCount;
                   topStarredRepos := top10 stargazers_count allRepos;
                   topForkedRepos := top10 forks_count allRepos;
                   githubToken := bool_decide (is_Some (Trend.has_token token)) |}
          | inr message, _, _ => Threw message
          | _, inr message, _ => Threw message
          | _, _, inr message => Threw message
          end
      | Threw message => Threw message
      | OutOfFuel => OutOfFuel
      end
  | Threw message => Threw message
  | OutOfFuel => OutOfFuel
  end.

(** The loop of [handleSearch] over several terms: a result is pushed for
    a term that succeeds, a failing term is logged and skipped. *)
Fixpoint for_each_term (fuel : nat) (w : world) (token : option string)
    (searchTerms : list string) (results : list report) : outcome (list report) :=
  match searchTerms with
  | [] => Returned results
  | term :: rest =>
      match processSearchTermForHIndex fuel w token term with
      | Returned result => for_each_term fuel w token rest (results ++ [result])
      | Threw _ => for_each_term fuel w token rest results
      | OutOfFuel => OutOfFuel
      end
  end.

(** What the H-Index part of [handleSearch] leaves in the state of the
    component. *)
Record hindex_view : Type := mkView {
  hIndexResults : option report;
  multiHIndexResults : list report;
  error : option string
}.

(** The H-Index part of [handleSearch], from the state [v] of the
    component: no term, a single call for one term, whose error goes to the
    [catch] of the handler, or the loop over several terms. *)
Definition hindex_analysis (fuel : nat) (w : world) (token : option string)
    (searchTerms : list string) (v : hindex_view) : outcome hindex_view :=
  match searchTerms with
  | [] =>
      Returned (mkView (hIndexResults v) (multiHIndexResults v)
                       (Some "Please add at least one search term"))
  | [term] =>
      match processSearchTermForHIndex fuel w token term with
      | Returned result => Returned (mkView (Some result) [] None)
      | Threw message =>
          Returned (mkView (hIndexResults v) (multiHIndexResults v) (Some message))
      | OutOfFuel => OutOfFuel
      end
  | _ =>
      match for_each_term fuel w token searchTerms [] with
      | Returned results => Returned (mkView None results None)
      | Threw message =>
          Returned (mkView (hIndexResults v) (multiHIndexResults v) (Some message))
      | OutOfFuel => OutOfFuel
      end
  end.

(** The [forEach] of [addSearchTerm]: each term is pushed unless the list
    has it already. *)
Definition push_new (newTerms : list string) (term : string) : list string :=
  if decide (term ∈ newTerms) then newTerms else newTerms ++ [term].

Definition add_terms (searchTerms terms : list string) : list string :=
  foldl push_new searchTerms terms.

(** An upstream that rejects every request. *)
Definition offline : world :=
  {| rest := λ _ _ _, Rest.Rejected "offline";
     graphql := λ _ _ _ _, GraphQL.Rejected "offline";
     counts := λ _ _ _, CountRejected "offline" |}.

(** [searchTerms.filter(t => t !== term)] *)
Definition removeSearchTerm (searchTerms : list string) (term : string)
    : list string :=
  filter (λ t, t ≠ term) searchTerms.

(** What the loop of [handleSearch] keeps of a term. *)
Definition kept (fuel : nat) (w : world) (token : option string)
    (term : string) : option report :=
  match processSearchTermForHIndex fuel w token term with
  | Returned result => Some result
  | _ => None
  end.

End App.

(** ** The settings in the URL *)

Module UrlSharing.

(** A [URLSearchParams] that is only written with [set] and read with
    [get]: one value for a name.  The query of the location is kept as the
    parameters that it parses to. *)
Abbreviation URLSearchParams := (gmap string string).

Section Platform.
(** [parseInt] on a string, [None] for [NaN]; the string of a number, as
    [set] stores it; [new Date().getFullYear()]. *)
Context (parseInt : string → option Z).
Context (toString : Z → string).
Context (currentYear : Z).

(** The settings of a search; the years are numbers, as the documentation
    of the parameters has them. *)
Record settings : Type := mkSettings {
  searchTerm : string;
  dateLimit : string;
  startYear : Z;
  endYear : Z;
  granularity : string;
  metric : string;
  showHIndexAnalysis : bool;
  showTrendAnalysis : bool
}.

(** The object that [parseUrlParams] returns; [searchTerm] is [null]
    without a [search] parameter. *)
Record url_params : Type := mkUrlParams {
  p_searchTerm : option string;
  p_dateLimit : string;
  p_startYear : Z;
  p_endYear : Z;
  p_granularity : string;
  p_metric : string;
  p_showHIndexAnalysis : bool;
  p_showTrendAnalysis : bool
}.

(** Truthiness of a string and of a number. *)
Definition truthy (s : string) : bool := bool_decide (s ≠ EmptyString).
Definition truthy_number (z : Z) : bool := bool_decide (z ≠ 0%Z).

(** [x || d] on a string that may be [null], and on a number that may be
    [NaN]. *)
Definition string_or (x : option string) (d : string) : string :=
  match x with
  | Some s => if truthy s then s else d
  | None => d
  end.

Definition number_or (x : option Z) (d : Z) : Z :=
  match x with
  | Some z => if truthy_number z then z else d
  | None => d
  end.

(** [b.toString()] *)
Definition bool_toString (b : bool) : string :=
  if b then "true" else "false".

(** [parseUrlParams()], from the parameters of the location;
    [parseInt(null)] is [NaN]. *)
Definition parseUrlParams (params : URLSearchParams) : url_params :=
  {| p_searchTerm := params !! "search";
     p_dateLimit := string_or (params !! "date") "2023-01-01";
     p_startYear := number_or (params !! "startYear" ≫= parseInt) (currentYear - 3);
     p_endYear := number_or (params !! "endYear" ≫= parseInt) currentYear;
     p_granularity := string_or (params !! "granularity") "year";
     p_metric := string_or (params !! "metric") "repositories";
     p_showHIndexAnalysis := bool_decide (params !! "showHIndex" = Some "true");
     p_showTrendAnalysis := bool_decide (params !! "showTrend" = Some "true") |}.

(** [updateSearchUrl(...)]: the parameters of the URL that it pushes. *)
Definition updateSearchUrl (searchTerm dateLimit : string) (startYear endYear : Z)
    (granularity metric : string) (showHIndexAnalysis showTrendAnalysis : bool)
    : URLSearchParams :=
  let params : URLSearchParams := ∅ in
  let params := if truthy searchTerm then <["search" := searchTerm]> params
                else params in
  let params := if truthy dateLimit then <["date" := dateLimit]> params
                else params in
  let params :=
    if showTrendAnalysis then
      let params := <["startYear" := toString startYear]> params in
      let params := <["endYear" := toString endYear]> params in
      let params := <["granularity" := granularity]> params in
      <["metric" := metric]> params
    else params in
  let params := <["showHIndex" := bool_toString showHIndexAnalysis]> params in
  <["showTrend" := bool_toString showTrendAnalysis]> params.

(** [generateShareableUrl(settings)]: the parameters of the URL that it
    returns. *)
Definition generateShareableUrl (s : settings) : URLSearchParams :=
  let params : URLSearchParams := ∅ in
  let params := if truthy (searchTerm s) then <["search" := searchTerm s]> params
                else params in
  let params := if truthy (dateLimit s) then <["date" := dateLimit s]> params
                else params in
  let params :=
    if showTrendAnalysis s then
      let params := if truthy_number (startYear s)
                    then <["startYear" := toString (startYear s)]> params
                    else params in
      let params := if truthy_number (endYear s)
                    then <["endYear" := toString (endYear s)]> params
                    else params in
      let params := if truthy (granularity s)
                    then <["granularity" := granularity s]> params
                    else params in
      if truthy (metric s) then <["metric" := metric s]> params else params
    else params in
  let params :=
    <["showHIndex" := string_or (Some (bool_toString (showHIndexAnalysis s))) "false"]>
      params in
  <["showTrend" := string_or (Some (bool_toString (showTrendAnalysis s))) "true"]>
    params.

(** The settings as [parseUrlParams] would return them. *)
Definition as_params (s : settings) : url_params :=
  {| p_searchTerm := Some (searchTerm s);
     p_dateLimit := dateLimit s;
     p_startYear := startYear s;
     p_endYear := endYear s;
     p_granularity := granularity s;
     p_metric := metric s;
     p_showHIndexAnalysis := showHIndexAnalysis s;
     p_showTrendAnalysis := showTrendAnalysis s |}.

(** Settings of which no part is empty or zero. *)
Definition complete (s : settings) : Prop :=
  searchTerm s ≠ EmptyString ∧ dateLimit s ≠ EmptyString ∧
  startYear s ≠ 0%Z ∧ endYear s ≠ 0%Z ∧
  granularity s ≠ EmptyString ∧ metric s ≠ EmptyString.

End Platform.

(** Decimal numerals, on which [parseInt] and the string of an integer
    agree: an optional sign and digits. *)
Definition digit_value (c : Ascii.ascii) : option Z :=
  let n := Ascii.nat_of_ascii c in
  if (48 <=? n)%nat && (n <=? 57)%nat then Some (Z.of_nat n - 48)%Z else None.

Fixpoint digits_value (acc : option Z) (s : string) : option Z :=
  match s with
  | EmptyString => acc
  | String c s' =>
      match digit_value c with
      | Some d => digits_value (Some (10 * default 0 acc + d)%Z) s'
      | None => acc
      end
  end.

Definition parseInt_decimal (s : string) : option Z :=
  match s with
  | String c s' =>
      if Nat.eqb (Ascii.nat_of_ascii c) 45 then Z.opp <$> digits_value None s'
      else if Nat.eqb (Ascii.nat_of_ascii c) 43 then digits_value None s'
      else digits_value None s
  | EmptyString => None
  end.

Definition search_2024 : settings :=
  {| searchTerm := "rust;go"; dateLimit := "2020-01-01";
     startYear := 2019; endYear := 2024;
     granularity := "quarter"; metric := "repositories";
     showHIndexAnalysis := false; showTrendAnalysis := true |}.

End UrlSharing.

(** * Properties *)

(** ** The index calculator *)

Module HIndexProps.
Import HIndex.

Section Sorting.
Context (p : property).

Lemma insert_desc_perm x l : insert_desc p x l ≡ₚ x :: l.
Proof.
  induction l as [|y l IH]; simpl; [done|].
  destruct (get x p <? get y p)%Z; [|done].
  rewrite IH. apply Permutation_swap.
Qed.

Lemma sort_desc_perm l : sort_desc p l ≡ₚ l.
Proof.
  induction l as [|x l IH]; simpl; [done|].
  rewrite insert_desc_perm. by f_equiv.
Qed.

Lemma insert_desc_sorted x l :
  StronglySorted (desc p) l → StronglySorted (desc p) (insert_desc p x l).
Proof.
  induction 1 as [|y l Hs IH Hy]; simpl.
  - repeat constructor.
  - destruct (Z.ltb_spec (get x p) (get y p)) as [Hlt|Hge].
    + constructor; [done|].
      rewrite insert_desc_perm. constructor; [unfold desc; lia | done].
    + constructor; [by constructor|].
      constructor; [done|].
      eapply Forall_impl; [exact Hy|]. unfold desc. intros z Hz. simpl in *. lia.
Qed.

Lemma sort_desc_sorted l : StronglySorted (desc p) (sort_desc p l).
Proof.
  induction l as [|x l IH]; simpl; [constructor|].
  by apply insert_desc_sorted.
Qed.

Lemma count_ge_perm k l1 l2 : l1 ≡ₚ l2 → count_ge p k l1 = count_ge p k l2.
Proof. intros Hp. unfold count_ge. by rewrite Hp. Qed.

Lemma count_ge_cons k r l :
  count_ge p k (r :: l) =
  if decide (k ≤ get r p)%Z then S (count_ge p k l) else count_ge p k l.
Proof. unfold count_ge. rewrite filter_cons. by case_decide. Qed.

Lemma count_ge_le_length k l : count_ge p k l ≤ length l.
Proof. apply length_filter. Qed.

Lemma count_ge_app k l1 l2 :
  count_ge p k (l1 ++ l2) = count_ge p k l1 + count_ge p k l2.
Proof. unfold count_ge. by rewrite filter_app, length_app. Qed.

(** All items are below [k]: none is counted. *)
Lemma count_ge_none k l :
  Forall (λ r, (get r p < k)%Z) l → count_ge p k l = 0.
Proof.
  induction 1 as [|r l Hr _ IH]; [done|].
  rewrite count_ge_cons. case_decide; [lia | done].
Qed.

(** What the scan computes on a descending list. *)
Lemma scan_sorted l i :
  StronglySorted (desc p) l →
  let h := scan p l i i in
  i ≤ h ≤ i + length l ∧
  Forall (λ r, (Z.of_nat h ≤ get r p)%Z) (take (h - i) l) ∧
  ∀ k : Z, (Z.of_nat h < k)%Z → count_ge p k l ≤ h - i.
Proof.
  intros Hs. revert i. induction Hs as [|r l Hs IH Hr]; intros i; cbn zeta; simpl.
  - split; [lia|]. split; [by rewrite take_nil|]. intros k _.
    unfold count_ge. simpl. lia.
  - destruct (Z.leb_spec (Z.of_nat (i + 1)) (get r p)) as [Hle|Hlt].
    + destruct (IH (i + 1)) as (Hb & Hpre & Hcnt).
      set (h := scan p l (i + 1) (i + 1)) in *.
      split; [lia|]. split.
      * replace (h - i) with (S (h - (i + 1))) by lia.
        rewrite firstn_cons. constructor; [|done].
        destruct (decide (h = i + 1)) as [->|Hne]; [done|].
        destruct l as [|y l]; [simpl in Hb; lia|].
        replace (h - (i + 1)) with (S (h - (i + 2))) in Hpre by lia.
        rewrite firstn_cons in Hpre. apply Forall_cons in Hpre as [Hy _].
        apply Forall_cons in Hr as [Hry _]. unfold desc in Hry. lia.
      * intros k Hk. rewrite count_ge_cons. specialize (Hcnt k Hk).
        case_decide; lia.
    + split; [lia|]. split; [by rewrite Nat.sub_diag|].
      intros k Hk. rewrite Nat.sub_diag.
      rewrite count_ge_cons. rewrite decide_False by lia.
      rewrite count_ge_none; [done|].
      eapply Forall_impl; [exact Hr|]. unfold desc. intros z Hz. simpl in *. lia.
Qed.

(** A prefix of [n] counted items gives a count of at least [n]. *)
Lemma count_ge_take k n l :
  n ≤ length l →
  Forall (λ r, (k ≤ get r p)%Z) (take n l) → n ≤ count_ge p k l.
Proof.
  revert l. induction n as [|n IH]; intros l Hn Hall; [lia|].
  destruct l as [|r l]; [simpl in Hn; lia|].
  rewrite firstn_cons in Hall. apply Forall_cons in Hall as [Hr Hall].
  rewrite count_ge_cons, decide_True by done.
  simpl in Hn. apply le_n_S, IH; [lia | done].
Qed.

(** The characterisation shared by the statements below. *)
Lemma calculateHIndex_char repos :
  is_h_index repos p (Z.of_nat (calculateHIndex repos p)).
Proof.
  unfold calculateHIndex.
  destruct (scan_sorted (sort_desc p repos) 0 (sort_desc_sorted repos))
    as (Hb & Hpre & Hcnt).
  set (h := scan p (sort_desc p repos) 0 0) in *.
  rewrite Nat.sub_0_r in Hpre.
  split.
  - rewrite <- (count_ge_perm _ _ _ (sort_desc_perm repos)).
    apply inj_le, count_ge_take; [lia | done].
  - intros k Hk. destruct (Z.le_gt_cases k (Z.of_nat h)) as [|Hlt]; [done|].
    specialize (Hcnt k ltac:(lia)).
    rewrite (count_ge_perm _ _ _ (sort_desc_perm repos)) in Hcnt. lia.
Qed.

Lemma calculateHIndex_le_length repos : calculateHIndex repos p ≤ length repos.
Proof.
  unfold calculateHIndex.
  destruct (scan_sorted (sort_desc p repos) 0 (sort_desc_sorted repos))
    as (Hb & _).
  rewrite (Permutation_length (sort_desc_perm repos)) in Hb. simpl in Hb. lia.
Qed.

(** Appending items never lowers the index. *)
Lemma calculateHIndex_app_mono l l' :
  calculateHIndex l p ≤ calculateHIndex (l ++ l') p.
Proof.
  destruct (calculateHIndex_char l) as [Hl _].
  destruct (calculateHIndex_char (l ++ l')) as [_ Hmax].
  apply Nat2Z.inj_le, Hmax. rewrite count_ge_app. lia.
Qed.
End Sorting.

(** C1: [calculateHIndex items field] is the largest integer [k] such that
    at least [k] items have a score [>= k] in that field; it is 0 on the
    empty list. *)
Theorem calculateHIndex_largest_k (repos : list Repo.t) (p : property) :
  is_h_index repos p (Z.of_nat (calculateHIndex repos p)) ∧
  calculateHIndex [] p = 0.
Proof. split; [apply calculateHIndex_char | reflexivity]. Qed.

Example hindex_10_8_5_4_3 :
  calculateHIndex (scored [10; 8; 5; 4; 3]%Z) stargazers_count = 4.
Proof. reflexivity. Qed.

Example hindex_5_5_5 : calculateHIndex (scored [5; 5; 5]%Z) stargazers_count = 3.
Proof. reflexivity. Qed.

Example hindex_unsorted :
  calculateHIndex (scored [3; 10; 4; 8; 5]%Z) stargazers_count = 4.
Proof. reflexivity. Qed.

End HIndexProps.

(** ** The REST fetch strategy *)

Module RestProps.
Import HIndex HIndexProps Rest.

Section Body.
Context (p : property).

(** The fields of the state after a non-empty page. *)
Lemma body_nonempty s data i its :
  items data = Some (i :: its) →
  let repos' := repos s ++ i :: its in
  let temp := calculateHIndex repos' p in
  let raised := currentHIndex s <? temp in
  repos (body p s data) = repos' ∧
  page (body p s data) = page s + 1 ∧
  totalItems (body p s data) = total_count data ∧
  hasMoreRepos (body p s data) =
    (if length (i :: its) <? perPage then false else hasMoreRepos s) ∧
  currentHIndex (body p s data) = (if raised then temp else currentHIndex s) ∧
  reachedHIndex (body p s data) =
    (if raised
     then (temp * 2 <=? length repos') && boundary_score_is p repos' temp
          && ((Z.of_nat (length repos') =? total_count data)%Z
              || (temp * 3 <=? length repos'))
          || reachedHIndex s
     else (perPage * 2 <=? length repos') && (temp =? currentHIndex s)
          || reachedHIndex s).
Proof.
  intros Hit repos' temp raised. unfold body. rewrite Hit.
  fold repos' temp raised.
  destruct raised.
  - destruct (_ && _ && _); simpl; done.
  - destruct (_ && _); simpl; done.
Qed.

(** The fields of the state after an empty or missing page. *)
Lemma body_empty s data :
  items data = None ∨ items data = Some [] →
  body p s data =
    {| repos := repos s; page := page s + 1; currentHIndex := currentHIndex s;
       hasMoreRepos := false; reachedHIndex := reachedHIndex s;
       totalItems := total_count data |}.
Proof. intros [H|H]; unfold body; by rewrite H. Qed.

(** The item read by the boundary test exists whenever the test runs. *)
Lemma boundary_item_exists (rs : list Repo.t) (cur : nat) :
  cur < calculateHIndex rs p →
  is_Some (rs !! (calculateHIndex rs p - 1)).
Proof.
  intros Hlt. apply lookup_lt_is_Some.
  pose proof (calculateHIndex_le_length p rs). lia.
Qed.

End Body.

Lemma invariant_init p : invariant p init.
Proof. split; simpl; try done; lia. Qed.

Lemma invariant_body p s data :
  invariant p s → hasMoreRepos s = true → invariant p (body p s data).
Proof.
  intros [Hh Hp Hf Hfull] Hmore.
  destruct (items data) as [[|i its]|] eqn:Hit.
  - rewrite body_empty by auto. split; simpl; try done; lia.
  - destruct (body_nonempty p s data i its Hit) as (Hr & Hpg & _ & Hm & Hc & _).
    pose proof (calculateHIndex_app_mono p (repos s) (i :: its)) as Hmono.
    split.
    + rewrite Hc, Hr. destruct (Nat.ltb_spec (currentHIndex s)
        (calculateHIndex (repos s ++ i :: its) p)); lia.
    + lia.
    + lia.
    + rewrite Hm, Hr, Hpg. rewrite length_app. specialize (Hfull Hmore).
      destruct (Nat.ltb_spec (length (i :: its)) perPage); [done|]. nia.
  - rewrite body_empty by auto. split; simpl; try done; lia.
Qed.

Lemma loop_cond_true s :
  loop_cond s = true ↔
  hasMoreRepos s = true ∧ page s ≤ 10 ∧ reachedHIndex s = false.
Proof.
  unfold loop_cond. rewrite !andb_true_iff, negb_true_iff, Nat.leb_le. tauto.
Qed.





(** The inner test can come true on a page that leaves the index unchanged,
    where the source does not try it; such a page is a partial one and the
    loop ends all the same.  Here the index is 40 after both pages, and the
    second page completes the 150 matches. *)
Example boundary_met_on_a_partial_page :
  let s1 := body stargazers_count init first_page in
  let s2 := body stargazers_count s1 second_page in
  loop_cond s1 = true ∧
  reachedHIndex s2 = false ∧
  boundary_test stargazers_count s2 ∧
  loop_cond s2 = false.
Proof.
  intros s1 s2.
  split; [by vm_compute|]. split; [by vm_compute|]. split; [|by vm_compute].
  split; [apply Nat.leb_le; by vm_compute|]. split.
  - eexists. split; by vm_compute.
  - left. by vm_compute.
Qed.

(** *** Termination and the request budget *)

Lemma page_body p s data : page (body p s data) = page s + 1.
Proof. unfold body. by repeat case_match. Qed.

(** From a head state at page [page s] the loop asks for pages
    [page s], [page s + 1], ... and never beyond page 10. *)
Lemma loop_log fuel upstream p s :
  let log := snd (loop fuel upstream p s) in
  log = seq (page s) (length log) ∧ page s + length log ≤ Nat.max (page s) 11.
Proof.
  revert s. induction fuel as [|fuel IH]; intros s; cbn zeta; simpl.
  - destruct (loop_cond s); simpl; (split; [done|lia]).
  - destruct (loop_cond s) eqn:Hc; simpl; [|split; [done|lia]].
    apply loop_cond_true in Hc as (_ & Hle & _).
    destruct (upstream (page s)) as [data| |]; simpl; try (split; [done|lia]).
    specialize (IH (body p s data)). rewrite page_body in IH.
    destruct (loop fuel upstream p (body p s data)) as [o log]. simpl in *.
    destruct IH as [Hlog Hlen]. split; [|lia].
    f_equal. by rewrite Nat.add_1_r in Hlog.
Qed.

(** Eleven minus the page number bounds the fuel the loop needs. *)
Lemma loop_terminates fuel upstream p s :
  11 - page s ≤ fuel → terminated (fst (loop fuel upstream p s)) = true.
Proof.
  revert s. induction fuel as [|fuel IH]; intros s Hfuel; simpl.
  - destruct (loop_cond s) eqn:Hc; [|done].
    apply loop_cond_true in Hc as (_ & Hle & _). lia.
  - destruct (loop_cond s) eqn:Hc; [|done].
    destruct (upstream (page s)) as [data| |]; [|done..].
    specialize (IH (body p s data)). rewrite page_body in IH.
    destruct (loop fuel upstream p (body p s data)) as [o log]. simpl in *.
    apply IH. lia.
Qed.

(** Once the loop has ended, more fuel changes nothing. *)
Lemma loop_fuel_irrelevant fuel extra upstream p s :
  terminated (fst (loop fuel upstream p s)) = true →
  loop (fuel + extra) upstream p s = loop fuel upstream p s.
Proof.
  revert s. induction fuel as [|fuel IH]; intros s; simpl.
  - destruct extra; simpl; destruct (loop_cond s); simpl; done.
  - destruct (loop_cond s); [|done].
    destruct (upstream (page s)) as [data| |]; [|done..].
    specialize (IH (body p s data)).
    destruct (loop fuel upstream p (body p s data)) as [o log].
    intros Ht. by rewrite IH.
Qed.

(** C7: a call of the REST strategy issues at most 10 page requests,
    whatever the upstream replies, and its loop terminates (ten units of
    fuel always suffice). *)
Theorem rest_at_most_10_requests (upstream : nat → reply) (p : property) (fuel : nat) :
  length (snd (fetchAndCalculateHIndexREST fuel upstream p)) ≤ 10 ∧
  terminated (fst (fetchAndCalculateHIndexREST (10 + fuel) upstream p)) = true.
Proof.
  unfold fetchAndCalculateHIndexREST. split.
  - destruct (loop_log fuel upstream p init) as [_ Hlen]. simpl in Hlen. lia.
  - apply loop_terminates. simpl. lia.
Qed.

(** *** The returned index *)

Lemma loop_result fuel upstream p s :
  invariant p s →
  match fst (loop fuel upstream p s) with
  | Returned r => hIndex r = calculateHIndex (res_repos r) p
  | Threw e => ∃ n, page s ≤ n ≤ 10 ∧ reply_error (upstream n) = Some e
  | OutOfFuel => True
  end.
Proof.
  revert s. induction fuel as [|fuel IH]; intros s Hinv; simpl.
  - destruct (loop_cond s); simpl; [done|]. apply Hinv.
  - destruct (loop_cond s) eqn:Hc; simpl; [|apply Hinv].
    apply loop_cond_true in Hc as (Hmore & Hle & _).
    destruct (upstream (page s)) as [data|st txt|why] eqn:Hup; simpl.
    + specialize (IH (body p s data) (invariant_body p s data Hinv Hmore)).
      rewrite page_body in IH.
      destruct (loop fuel upstream p (body p s data)) as [[r|e|] log]; simpl in *;
        [done | | done].
      destruct IH as (n & ? & ?). exists n. split; [lia | done].
    + exists (page s). rewrite Hup. split; [lia | done].
    + exists (page s). rewrite Hup. split; [lia | done].
Qed.

(** C9: the [hIndex] that the REST strategy returns, tracked page by page
    and raised only on a strict increase, is [calculateHIndex] of the whole
    accumulated list at loop exit; the reason is that [calculateHIndex]
    never decreases when items are appended.  (A call that does not return
    has met a failing reply.) *)
Theorem rest_hindex_is_final_recomputation
    (upstream : nat → reply) (p : property) (fuel : nat) :
  (∀ l l' : list Repo.t, calculateHIndex l p ≤ calculateHIndex (l ++ l') p) ∧
  match fst (fetchAndCalculateHIndexREST (10 + fuel) upstream p) with
  | Returned r => hIndex r = calculateHIndex (res_repos r) p
  | Threw e => ∃ n, 1 ≤ n ≤ 10 ∧ reply_error (upstream n) = Some e
  | OutOfFuel => False
  end.
Proof.
  split; [apply calculateHIndex_app_mono|].
  pose proof (loop_result (10 + fuel) upstream p init (invariant_init p)) as Hres.
  pose proof (loop_terminates (10 + fuel) upstream p init) as Hterm.
  unfold fetchAndCalculateHIndexREST.
  destruct (fst (loop (10 + fuel) upstream p init)); [done | done |].
  simpl in Hterm. discriminate Hterm. lia.
Qed.

End RestProps.

(** ** The GraphQL fetch strategy *)

Module GraphQLProps.
Import HIndex HIndexProps GraphQL.

Section Accumulation.
Context (upstream : nat → option string → reply) (p : property).

Lemma length_accumulate s searchData :
  length (allRepos (accumulate s searchData)) =
  length (allRepos s) + length (nodes searchData).
Proof. simpl. by rewrite length_app, length_map. Qed.

(** A page is requested only while fewer than 500 items are held, so the
    collection stays below 600 when no page has more than 100 nodes. *)
Lemma loop_below_600 fuel n s :
  pages_bounded upstream →
  length (allRepos s) < 500 →
  Forall (λ s', length (allRepos s') < 600) (snd (loop fuel upstream p n s)).
Proof.
  intros Hb. revert n s. induction fuel as [|fuel IH]; intros n s Hlen; simpl.
  - by destruct (hasNextPage s).
  - destruct (hasNextPage s); [|done].
    destruct (upstream n (afterClause s)) as [sd| | |] eqn:Hup; try done.
    pose proof (Hb _ _ _ Hup) as Hsd.
    pose proof (length_accumulate s sd) as Hacc.
    destruct (found_enough p (accumulate s sd)); [apply Forall_singleton; lia|].
    unfold cap_reached.
    destruct (Nat.leb_spec 500 (length (allRepos (accumulate s sd))));
      [apply Forall_singleton; lia|].
    specialize (IH (n + 1) (accumulate s sd) ltac:(lia)).
    destruct (loop fuel upstream p (n + 1) (accumulate s sd)) as [o visited].
    cbn [snd] in *. constructor; [lia | done].
Qed.

(** When only the last page may be partial, the loop heads hold a
    multiple of 100 items and the collection never exceeds 500. *)
Lemma loop_at_most_500 fuel n s :
  pages_bounded upstream →
  partial_is_last upstream →
  (hasNextPage s = true → ∃ k, length (allRepos s) = 100 * k ∧ k < 5) →
  Forall (λ s', length (allRepos s') ≤ 500) (snd (loop fuel upstream p n s)).
Proof.
  intros Hb Hlast. revert n s.
  induction fuel as [|fuel IH]; intros n s Hhead; simpl.
  - by destruct (hasNextPage s).
  - destruct (hasNextPage s); [|done].
    destruct (Hhead eq_refl) as (k & Hk & Hk5).
    destruct (upstream n (afterClause s)) as [sd| | |] eqn:Hup; try done.
    pose proof (Hb _ _ _ Hup) as Hsd.
    pose proof (Hlast _ _ _ Hup) as Hpart.
    pose proof (length_accumulate s sd) as Hacc.
    destruct (found_enough p (accumulate s sd)); [apply Forall_singleton; lia|].
    unfold cap_reached.
    destruct (Nat.leb_spec 500 (length (allRepos (accumulate s sd))));
      [apply Forall_singleton; lia|].
    assert (Hnext : hasNextPage (accumulate s sd) = true →
                    ∃ k', length (allRepos (accumulate s sd)) = 100 * k' ∧ k' < 5).
    { simpl hasNextPage. intros Hmore. exists (k + 1).
      destruct (decide (length (nodes sd) < 100)) as [Hshort|Hfull].
      - rewrite (Hpart Hshort) in Hmore. done.
      - lia. }
    specialize (IH (n + 1) (accumulate s sd) Hnext).
    destruct (loop fuel upstream p (n + 1) (accumulate s sd)) as [o visited].
    cbn [snd] in *. constructor; [lia | done].
Qed.
End Accumulation.

(** C3, as the code has it: with pages of at most 100 nodes the accumulated
    collection stays below 600 items at every point of the loop (a page is
    only requested while fewer than 500 are held); it stays within 500 when,
    in addition, only the last page has fewer than 100 nodes. *)
Theorem graphql_accumulation_bound
    (upstream : nat → option string → reply) (p : property) (fuel : nat) :
  pages_bounded upstream →
  Forall (λ s, length (allRepos s) < 600)
         (snd (fetchAndCalculateHIndexGraphQL fuel upstream p)) ∧
  (partial_is_last upstream →
   Forall (λ s, length (allRepos s) ≤ 500)
          (snd (fetchAndCalculateHIndexGraphQL fuel upstream p))).
Proof.
  intros Hb. unfold fetchAndCalculateHIndexGraphQL. split.
  - apply loop_below_600; [done | simpl; lia].
  - intros Hlast. apply loop_at_most_500; [done..|].
    intros _. exists 0. simpl. lia.
Qed.

Lemma pages_of_99_bounded : pages_bounded pages_of_99.
Proof. intros n after sd [= <-]. vm_compute. lia. Qed.

Lemma pages_of_100_bounded : pages_bounded pages_of_100.
Proof. intros n after sd [= <-]. vm_compute. lia. Qed.

Lemma pages_of_100_partial_is_last : partial_is_last pages_of_100.
Proof. intros n after sd [= <-]. vm_compute. lia. Qed.

(** Both bounds at the transport of full pages, which stops at 500. *)
Lemma graphql_accumulation_bound_witness :
  pages_bounded pages_of_100 ∧
  partial_is_last pages_of_100 ∧
  Forall (λ s, length (allRepos s) < 600)
         (snd (fetchAndCalculateHIndexGraphQL 7 pages_of_100 stargazers_count)) ∧
  Forall (λ s, length (allRepos s) ≤ 500)
         (snd (fetchAndCalculateHIndexGraphQL 7 pages_of_100 stargazers_count)).
Proof.
  split; [exact pages_of_100_bounded|].
  split; [exact pages_of_100_partial_is_last|].
  destruct (graphql_accumulation_bound pages_of_100 stargazers_count 7
              pages_of_100_bounded) as [Hlt Hle].
  split; [exact Hlt | exact (Hle pages_of_100_partial_is_last)].
Defined.

(** C3 as stated fails: six pages of 99 nodes, each with 1000 stars, are
    all fetched (495 items are below the cap and below three times the
    index) and leave 594 items in the collection. *)
Lemma graphql_exceeds_500 :
  pages_bounded pages_of_99 ∧
  (λ s, length (allRepos s)) <$>
    snd (fetchAndCalculateHIndexGraphQL 6 pages_of_99 stargazers_count)
  = [99; 198; 297; 396; 495; 594] ∧
  ¬ Forall (λ s, length (allRepos s) ≤ 500)
      (snd (fetchAndCalculateHIndexGraphQL 6 pages_of_99 stargazers_count)).
Proof.
  split; [exact pages_of_99_bounded|].
  assert (Hlens : (λ s, length (allRepos s)) <$>
    snd (fetchAndCalculateHIndexGraphQL 6 pages_of_99 stargazers_count)
    = [99; 198; 297; 396; 495; 594]) by (vm_compute; reflexivity).
  split; [exact Hlens|].
  intros Hall.
  assert (Hlen : Forall (λ n, n ≤ 500) [99; 198; 297; 396; 495; 594]).
  { rewrite <- Hlens. by apply Forall_fmap. }
  repeat match goal with H : Forall _ (_ :: _) |- _ =>
    apply Forall_cons in H as [? H] end.
  lia.
Qed.

End GraphQLProps.

(** ** The time window generator *)

Module WindowsProps.
Import Windows.

Example february_2020 :
  iso <$> (w_end <$> generateTimeWindows (mkJsDate 2026 5 14) 2020 2020 "month") !! 1
  = Some "2020-02-29"%string.
Proof. vm_compute. reflexivity. Qed.

Example start_after_end :
  generateTimeWindows (mkJsDate 2026 5 14) 2023 2020 "year" = [].
Proof. reflexivity. Qed.

Example quarters_2021 :
  (λ w, (iso (w_start w), iso (w_end w))) <$>
    generateTimeWindows (mkJsDate 2021 7 2) 2021 2021 "quarter"
  = [("2021-01-01", "2021-03-31"); ("2021-04-01", "2021-06-30")]%string.
Proof. vm_compute. reflexivity. Qed.


(** *** Which windows are emitted *)

Section Emitted.
Context (currentDate : js_date) (startYear endYear : Z).

Let currentYear := getFullYear currentDate.
Let currentMonth := (getMonth currentDate + 1)%Z.
Let currentQuarter := ceil_div currentMonth 3.

Lemma elem_of_years y : y ∈ years startYear endYear ↔ (startYear ≤ y ≤ endYear)%Z.
Proof. unfold years. rewrite elem_of_seqZ. lia. Qed.

Lemma elem_of_year_windows w :
  w ∈ generateTimeWindows currentDate startYear endYear "year" ↔
  ∃ y, (startYear ≤ y ≤ endYear)%Z ∧ y ≠ currentYear ∧ w = year_window y.
Proof.
  unfold generateTimeWindows. rewrite decide_True by done.
  rewrite list_elem_of_bind. split.
  - intros (y & Hw & Hy). apply elem_of_years in Hy.
    case_decide; [by apply elem_of_nil in Hw|].
    apply list_elem_of_singleton in Hw. eauto.
  - intros (y & Hy & Hne & ->). exists y. rewrite elem_of_years.
    rewrite decide_False by done. split; [apply list_elem_of_singleton|]; done.
Qed.

Lemma elem_of_quarter_windows w :
  w ∈ generateTimeWindows currentDate startYear endYear "quarter" ↔
  ∃ y q, (startYear ≤ y ≤ endYear)%Z ∧ (1 ≤ q ≤ 4)%Z ∧
         ¬ (y = currentYear ∧ (currentQuarter ≤ q)%Z) ∧
         w = quarter_window y q.
Proof.
  unfold generateTimeWindows.
  rewrite decide_False, decide_True by done.
  rewrite list_elem_of_bind. split.
  - intros (y & Hw & Hy). apply elem_of_years in Hy.
    apply list_elem_of_bind in Hw as (q & Hw & Hq).
    apply elem_of_seqZ in Hq.
    case_decide; [by apply elem_of_nil in Hw|].
    apply list_elem_of_singleton in Hw. exists y, q.
    repeat split; try done; lia.
  - intros (y & q & Hy & Hq & Hskip & ->). exists y.
    rewrite elem_of_years. split; [|done].
    apply list_elem_of_bind. exists q. rewrite elem_of_seqZ.
    rewrite decide_False by done.
    split; [by apply list_elem_of_singleton | lia].
Qed.

Lemma elem_of_month_windows w :
  w ∈ generateTimeWindows currentDate startYear endYear "month" ↔
  ∃ y m, (startYear ≤ y ≤ endYear)%Z ∧ (1 ≤ m ≤ 12)%Z ∧
         ¬ (y = currentYear ∧ (currentMonth ≤ m)%Z) ∧
         w = month_window y m.
Proof.
  unfold generateTimeWindows.
  rewrite !decide_False, decide_True by done.
  rewrite list_elem_of_bind. split.
  - intros (y & Hw & Hy). apply elem_of_years in Hy.
    apply list_elem_of_bind in Hw as (m & Hw & Hm).
    apply elem_of_seqZ in Hm.
    case_decide; [by apply elem_of_nil in Hw|].
    apply list_elem_of_singleton in Hw. exists y, m.
    repeat split; try done; lia.
  - intros (y & m & Hy & Hm & Hskip & ->). exists y.
    rewrite elem_of_years. split; [|done].
    apply list_elem_of_bind. exists m. rewrite elem_of_seqZ.
    rewrite decide_False by done.
    split; [by apply list_elem_of_singleton | lia].
Qed.

(** Any other granularity gives no window at all. *)
Lemma other_granularity g :
  g ≠ "year" → g ≠ "quarter" → g ≠ "month" →
  generateTimeWindows currentDate startYear endYear g = [].
Proof.
  intros. unfold generateTimeWindows. by rewrite !decide_False by done.
Qed.
End Emitted.


(** *** Completed periods *)

Lemma ceil_div_3_bounds (m : Z) :
  (3 * ceil_div m 3 - 2 ≤ m ≤ 3 * ceil_div m 3)%Z.
Proof.
  unfold ceil_div.
  pose proof (Z.div_mod (- m) 3 ltac:(lia)).
  pose proof (Z.mod_pos_bound (- m) 3 ltac:(lia)). lia.
Qed.

Ltac unfold_dates :=
  unfold contains, date_le, today, year_window, quarter_window, month_window;
  simpl.

(** C4: whatever the years, the granularity and the current date, no
    window that [generateTimeWindows] emits contains the current date. *)
Theorem no_window_contains_now
    (currentDate : js_date) (startYear endYear : Z) (granularity : string)
    (w : window) :
  w ∈ generateTimeWindows currentDate startYear endYear granularity →
  ¬ contains w (today currentDate).
Proof.
  intros Hw.
  destruct (decide (granularity = "year")) as [->|Hy].
  { apply elem_of_year_windows in Hw as (y & _ & Hne & ->).
    unfold_dates. lia. }
  destruct (decide (granularity = "quarter")) as [->|Hq].
  { apply elem_of_quarter_windows in Hw as (y & q & _ & _ & Hskip & ->).
    pose proof (ceil_div_3_bounds (getMonth currentDate + 1)).
    unfold_dates. lia. }
  destruct (decide (granularity = "month")) as [->|Hm].
  { apply elem_of_month_windows in Hw as (y & m & _ & _ & Hskip & ->).
    unfold_dates. lia. }
  rewrite other_granularity in Hw by done. by apply elem_of_nil in Hw.
Qed.

(** On 2 November 2026 the third quarter of 2026 is emitted and does not
    contain the day. *)
Lemma no_window_contains_now_witness :
  ¬ contains (quarter_window 2026 3) (today (mkJsDate 2026 10 2)).
Proof.
  apply (no_window_contains_now (mkJsDate 2026 10 2) 2025 2026 "quarter").
  vm_compute. do 6 right. left.
Defined.

(** *** Month lengths *)

Lemma isLeapYear_rule (y : Z) : isLeapYear y = true ↔ leap_year_rule y.
Proof.
  unfold isLeapYear, leap_year_rule.
  rewrite orb_true_iff, andb_true_iff, negb_true_iff, !Z.eqb_eq, Z.eqb_neq.
  rewrite !Z.rem_divide by lia.
  assert ((400 | y)%Z → (4 | y)%Z).
  { intros [k ->]. exists (100 * k)%Z. lia. }
  tauto.
Qed.

Lemma thirty_day_months (m : Z) :
  m ∈ [4; 6; 9; 11]%Z ↔ (m = 4 ∨ m = 6 ∨ m = 9 ∨ m = 11)%Z.
Proof. rewrite !elem_of_cons, elem_of_nil. tauto. Qed.

Lemma endDay_last_day (y m : Z) :
  (1 ≤ m ≤ 12)%Z → last_day_of_month y m (endDay y m).
Proof.
  intros Hm. unfold last_day_of_month, endDay. split; [done|].
  destruct (Z.eqb_spec m 2) as [->|Hne].
  - rewrite !thirty_day_months.
    destruct (isLeapYear y) eqn:Hleap.
    + apply isLeapYear_rule in Hleap. repeat split; try done; lia.
    + apply not_true_iff_false in Hleap. rewrite isLeapYear_rule in Hleap.
      repeat split; try done; lia.
  - case_bool_decide as Hin; repeat split; try done.
Qed.

(** C5: every quarter or month window ends on the last day of its final
    calendar month: 30 for April, June, September and November, 31 for the
    other months but February, and for February 29 exactly in the years
    divisible by 4 and (not by 100, or by 400), else 28. *)
Theorem window_ends_on_last_day
    (currentDate : js_date) (startYear endYear : Z) (granularity : string)
    (w : window) :
  granularity = "quarter" ∨ granularity = "month" →
  w ∈ generateTimeWindows currentDate startYear endYear granularity →
  year (w_end w) = year (w_start w) ∧
  last_day_of_month (year (w_end w)) (month (w_end w)) (day (w_end w)).
Proof.
  intros [-> | ->] Hw.
  - apply elem_of_quarter_windows in Hw as (y & q & _ & Hq & _ & ->).
    split; [done|]. simpl. apply endDay_last_day. lia.
  - apply elem_of_month_windows in Hw as (y & m & _ & Hm & _ & ->).
    split; [done|]. simpl. by apply endDay_last_day.
Qed.

(** February 2024 among the months of 2024, seen from November 2026. *)
Lemma window_ends_on_last_day_witness :
  year (w_end (month_window 2024 2)) = year (w_start (month_window 2024 2)) ∧
  last_day_of_month (year (w_end (month_window 2024 2)))
                    (month (w_end (month_window 2024 2)))
                    (day (w_end (month_window 2024 2))).
Proof.
  apply (window_ends_on_last_day (mkJsDate 2026 10 2) 2024 2024 "month").
  - by right.
  - vm_compute. right. left.
Defined.

(** *** Years other than the current one *)

(** Only windows of the current calendar year are ever skipped. *)
Lemma other_years_are_emitted (currentDate : js_date) (startYear endYear y : Z) :
  (startYear ≤ y ≤ endYear)%Z →
  y ≠ getFullYear currentDate →
  year_window y ∈ generateTimeWindows currentDate startYear endYear "year" ∧
  (∀ q, (1 ≤ q ≤ 4)%Z →
     quarter_window y q ∈ generateTimeWindows currentDate startYear endYear "quarter") ∧
  (∀ m, (1 ≤ m ≤ 12)%Z →
     month_window y m ∈ generateTimeWindows currentDate startYear endYear "month").
Proof.
  intros Hy Hne. split; [|split].
  - apply elem_of_year_windows. eauto.
  - intros q Hq. apply elem_of_quarter_windows. exists y, q.
    split; [done|]. split; [done|]. split; [by intros [? _] | done].
  - intros m Hm. apply elem_of_month_windows. exists y, m.
    split; [done|]. split; [done|]. split; [by intros [? _] | done].
Qed.

(** C10: the exclusion of incomplete periods touches the current calendar
    year only: when [endYear] lies after the current year, every year after
    the current one (within the requested range) has its year window, its
    four quarter windows and its twelve month windows in the output. *)
Theorem future_years_are_emitted
    (currentDate : js_date) (startYear endYear y : Z) :
  (getFullYear currentDate < endYear)%Z →
  (startYear ≤ y ≤ endYear)%Z →
  (getFullYear currentDate < y)%Z →
  year_window y ∈ generateTimeWindows currentDate startYear endYear "year" ∧
  (∀ q, (1 ≤ q ≤ 4)%Z →
     quarter_window y q ∈ generateTimeWindows currentDate startYear endYear "quarter") ∧
  (∀ m, (1 ≤ m ≤ 12)%Z →
     month_window y m ∈ generateTimeWindows currentDate startYear endYear "month").
Proof.
  intros _ Hy Hfuture. apply other_years_are_emitted; [done | lia].
Qed.

(** Asked in November 2026 for 2025 to 2028, the generator emits 2027. *)
Lemma future_years_are_emitted_witness :
  year_window 2027 ∈ generateTimeWindows (mkJsDate 2026 10 2) 2025 2028 "year" ∧
  (∀ q, (1 ≤ q ≤ 4)%Z →
     quarter_window 2027 q ∈
       generateTimeWindows (mkJsDate 2026 10 2) 2025 2028 "quarter") ∧
  (∀ m, (1 ≤ m ≤ 12)%Z →
     month_window 2027 m ∈
       generateTimeWindows (mkJsDate 2026 10 2) 2025 2028 "month").
Proof.
  apply (future_years_are_emitted (mkJsDate 2026 10 2) 2025 2028 2027);
    simpl; lia.
Defined.

End WindowsProps.

(** ** The merge of the two passes *)

Module ReportProps.
Import Report.

Section MapSet.
Implicit Types (m : js_map) (k : repo_id) (v : Repo.t).

Lemma map_set_keys k v m :
  (map_set k v m).*1 = if decide (k ∈ m.*1) then m.*1 else m.*1 ++ [k].
Proof.
  induction m as [|[k' v'] m IH]; [done|].
  cbn [map_set]. rewrite fmap_cons. cbn [fst].
  destruct (decide (k = k')) as [->|Hne]; rewrite fmap_cons; cbn [fst].
  - rewrite decide_True; [done|]. left.
  - rewrite IH. destruct (decide (k ∈ m.*1)) as [Hin|Hnin].
    + rewrite decide_True; [done|]. by right.
    + rewrite decide_False; [done|]. by intros [?|?]%elem_of_cons.
Qed.

Lemma map_set_NoDup k v m : NoDup m.*1 → NoDup (map_set k v m).*1.
Proof.
  intros Hnd. rewrite map_set_keys. case_decide; [done|].
  apply NoDup_app. split; [done|]. split; [|apply NoDup_singleton].
  by intros x Hx ->%list_elem_of_singleton.
Qed.

(** With distinct keys, [set] changes the entry of its key and no other. *)
Lemma elem_of_map_set k v m k' v' :
  NoDup m.*1 →
  (k', v') ∈ map_set k v m ↔ (k' = k ∧ v' = v) ∨ (k' ≠ k ∧ (k', v') ∈ m).
Proof.
  induction m as [|[k0 v0] m IH]; simpl; intros Hnd.
  - rewrite list_elem_of_singleton, elem_of_nil. split.
    + intros [= -> ->]. by left.
    + by intros [[-> ->]|[_ []]].
  - apply NoDup_cons in Hnd as [Hk0 Hnd].
    destruct (decide (k = k0)) as [->|Hne].
    + rewrite !elem_of_cons. split.
      * intros [[= -> ->]|Hin]; [by left|]. right. split; [|by right].
        intros ->. apply Hk0. by apply (list_elem_of_fmap_2 fst) in Hin.
      * intros [[-> ->]|[Hne [[= -> ->]|Hin]]]; [by left|done|by right].
    + rewrite !elem_of_cons, (IH Hnd). split.
      * intros [[= -> ->]|[[-> ->]|[? ?]]]; [right|left|right]; auto.
      * intros [[-> ->]|[? [[= -> ->]|?]]]; auto.
Qed.
End MapSet.


Lemma new_Map_snoc (l : list Repo.t) (x : Repo.t) :
  new_Map (entry <$> (l ++ [x])) = map_set (Repo.id x) x (new_Map (entry <$> l)).
Proof. unfold new_Map. by rewrite fmap_app, foldl_app. Qed.

(** The keys of the map are pairwise distinct. *)
Lemma new_Map_NoDup (l : list Repo.t) : NoDup (new_Map (entry <$> l)).*1.
Proof.
  induction l as [|x l IH] using rev_ind; [constructor|].
  rewrite new_Map_snoc. by apply map_set_NoDup.
Qed.

(** They are the ids of the items. *)
Lemma new_Map_id_set (l : list Repo.t) :
  list_to_set (new_Map (entry <$> l)).*1 = id_set l.
Proof.
  unfold id_set, ids.
  induction l as [|x l IH] using rev_ind; [done|].
  rewrite new_Map_snoc, map_set_keys, fmap_app, list_to_set_app_L. simpl.
  case_decide as Hin.
  - rewrite IH. apply (elem_of_list_to_set (C:=gset repo_id)) in Hin.
    rewrite IH in Hin. rewrite (right_id_L ∅ (∪)). symmetry.
    rewrite (comm_L (∪)). by apply subseteq_union_1_L, singleton_subseteq_l.
  - rewrite list_to_set_app_L, IH. done.
Qed.

(** An item is a value of the map exactly when no later item has its id. *)
Lemma elem_of_new_Map (l : list Repo.t) (k : repo_id) (v : Repo.t) :
  (k, v) ∈ new_Map (entry <$> l) ↔
  k = Repo.id v ∧ ∃ l1 l2, l = l1 ++ v :: l2 ∧ Repo.id v ∉ ids l2.
Proof.
  revert k v. induction l as [|x l IH] using rev_ind; intros k v.
  - split; [by intros ?%elem_of_nil|]. intros (_ & l1 & l2 & Hl & _).
    by destruct l1.
  - rewrite new_Map_snoc, elem_of_map_set by apply new_Map_NoDup.
    rewrite IH. split.
    + intros [[-> ->]|(Hne & -> & l1 & l2 & -> & Hnin)].
      * split; [done|]. exists l, []. split; [done|]. by intros ?%elem_of_nil.
      * split; [done|]. exists l1, (l2 ++ [x]).
        split; [by rewrite <- app_assoc|].
        unfold ids. rewrite fmap_app, elem_of_app.
        change (Repo.id <$> [x]) with [Repo.id x]. rewrite list_elem_of_singleton.
        by intros [?|?].
    + intros (-> & l1 & l2 & Hl & Hnin).
      destruct l2 as [|y l2 _] using rev_ind.
      * apply app_inj_tail in Hl as [_ ->]. by left.
      * rewrite app_comm_cons, app_assoc in Hl.
        apply app_inj_tail in Hl as [-> ->].
        unfold ids in Hnin. rewrite fmap_app, elem_of_app in Hnin.
        change (Repo.id <$> [y]) with [Repo.id y] in Hnin.
        rewrite list_elem_of_singleton in Hnin.
        right. split; [by intros Heq; apply Hnin; right|].
        split; [done|]. exists l1, l2. split; [done|].
        by intros ?; apply Hnin; left.
Qed.

Lemma length_allRepos (A B : list Repo.t) :
  length (allRepos A B) = size (id_set A ∪ id_set B).
Proof.
  unfold allRepos, values.
  rewrite length_fmap, <- (length_fmap fst).
  rewrite <- (size_list_to_set (C:=gset repo_id)) by apply new_Map_NoDup.
  rewrite new_Map_id_set. unfold id_set, ids.
  by rewrite fmap_app, list_to_set_app_L.
Qed.

Lemma ids_allRepos (A B : list Repo.t) :
  ids (allRepos A B) = (new_Map (entry <$> (A ++ B))).*1.
Proof.
  unfold allRepos, values, ids.
  assert (Hm : ∀ k v, (k, v) ∈ new_Map (entry <$> (A ++ B)) → k = Repo.id v).
  { intros k v Hin. by apply elem_of_new_Map in Hin as [? _]. }
  revert Hm. generalize (new_Map (entry <$> (A ++ B))).
  intros m. induction m as [|[k v] m IH]; intros Hm; [done|].
  rewrite !fmap_cons. simpl. f_equal.
  - symmetry. apply Hm. left.
  - apply IH. intros k' v' Hin. apply Hm. by right.
Qed.


(** Each id occurs once in the merged collection, whatever the inputs. *)
Lemma allRepos_NoDup (A B : list Repo.t) : NoDup (ids (allRepos A B)).
Proof. rewrite ids_allRepos. apply new_Map_NoDup. Qed.

Lemma NoDup_ids_later (l1 l2 : list Repo.t) (r : Repo.t) :
  NoDup (ids (l1 ++ r :: l2)) → Repo.id r ∉ ids l2.
Proof.
  unfold ids. rewrite fmap_app, fmap_cons.
  intros (_ & _ & Hnd)%NoDup_app. by apply NoDup_cons in Hnd as [? _].
Qed.

Lemma elem_of_allRepos (l : list Repo.t) (r : Repo.t) :
  r ∈ values (new_Map (entry <$> l)) ↔
  ∃ l1 l2, l = l1 ++ r :: l2 ∧ Repo.id r ∉ ids l2.
Proof.
  unfold values. rewrite list_elem_of_fmap. split.
  - intros ([k v] & -> & Hin). by apply elem_of_new_Map in Hin as [_ ?].
  - intros Hlast. exists (Repo.id r, r). split; [done|].
    by apply elem_of_new_Map.
Qed.

(** C6, as the code has it: for two lists, each without a repeated id, that
    share [k] ids, the merge has [|A| + |B| - k] items, holds each id at
    most once, and keeps the fork-pass item of a shared id (its items are
    those of [B] and the items of [A] whose id [B] does not have). *)
Theorem merge_by_id (A B : list Repo.t) :
  NoDup (ids A) →
  NoDup (ids B) →
  length (allRepos A B) = length A + length B - common_ids A B ∧
  NoDup (ids (allRepos A B)) ∧
  ∀ r, r ∈ allRepos A B ↔ r ∈ B ∨ (r ∈ A ∧ Repo.id r ∉ ids B).
Proof.
  intros HA HB. split; [|split; [apply allRepos_NoDup|]].
  - rewrite length_allRepos, size_union_alt, size_difference_alt.
    unfold common_ids.
    rewrite (comm_L (∩) (id_set B)).
    assert (size (id_set A ∩ id_set B) ≤ size (id_set B))
      by (apply subseteq_size, intersection_subseteq_r).
    unfold id_set in *.
    rewrite !size_list_to_set in * by done.
    unfold ids in *. rewrite !length_fmap in *. lia.
  - intros r. unfold allRepos. rewrite elem_of_allRepos. split.
    + intros (l1 & l2 & Hl & Hnin).
      apply app_eq_app in Hl as (l & [[-> Hr]|[-> ->]]).
      * destruct l as [|r' l]; simpl in Hr.
        -- left. rewrite <- Hr. left.
        -- injection Hr as <- ->. right. split.
           ++ apply elem_of_app. right. left.
           ++ intros Hin. apply Hnin. unfold ids. rewrite fmap_app.
              apply elem_of_app. by right.
      * left. apply elem_of_app. right. left.
    + intros [HrB|[HrA Hnin]].
      * apply list_elem_of_split in HrB as (B1 & B2 & ->).
        exists (A ++ B1), B2. split; [by rewrite <- app_assoc|].
        by eapply NoDup_ids_later.
      * apply list_elem_of_split in HrA as (A1 & A2 & ->).
        exists A1, (A2 ++ B). split; [by rewrite <- app_assoc|].
        unfold ids. rewrite fmap_app, elem_of_app.
        intros [Hin|Hin]; [|done]. by eapply NoDup_ids_later.
Qed.

(** Two passes that share one id. *)
Lemma merge_by_id_witness :
  length (allRepos [repo_a; repo_b_star] [repo_c; repo_b_fork])
  = 2 + 2 - common_ids [repo_a; repo_b_star] [repo_c; repo_b_fork] ∧
  NoDup (ids (allRepos [repo_a; repo_b_star] [repo_c; repo_b_fork])) ∧
  ∀ r, r ∈ allRepos [repo_a; repo_b_star] [repo_c; repo_b_fork] ↔
       r ∈ [repo_c; repo_b_fork] ∨
       (r ∈ [repo_a; repo_b_star] ∧ Repo.id r ∉ ids [repo_c; repo_b_fork]).
Proof.
  apply (merge_by_id [repo_a; repo_b_star] [repo_c; repo_b_fork]).
  - apply (bool_decide_unpack _). vm_compute. exact I.
  - apply (bool_decide_unpack _). vm_compute. exact I.
Defined.

Example merge_keeps_fork_item :
  allRepos [repo_a; repo_b_star] [repo_c; repo_b_fork]
  = [repo_a; repo_b_fork; repo_c].
Proof. reflexivity. Qed.

(** C6 as stated fails for a pass that lists an item twice (the star pass
    meets [repo_a] on two pages): the lists share one id, the merge has two
    items, and [|A| + |B| - k] is three. *)
Lemma merge_size_with_repeated_id :
  common_ids [repo_a; repo_b_star; repo_a] [repo_b_fork] = 1 ∧
  length (allRepos [repo_a; repo_b_star; repo_a] [repo_b_fork]) = 2 ∧
  length (allRepos [repo_a; repo_b_star; repo_a] [repo_b_fork])
  ≠ length [repo_a; repo_b_star; repo_a] + length [repo_b_fork]
    - common_ids [repo_a; repo_b_star; repo_a] [repo_b_fork].
Proof.
  assert (Hk : common_ids [repo_a; repo_b_star; repo_a] [repo_b_fork] = 1)
    by (vm_compute; reflexivity).
  split; [exact Hk|]. split; [reflexivity|].
  rewrite Hk. simpl. lia.
Qed.

End ReportProps.

(** ** The trend aggregator *)

Module TrendProps.
Import Trend.

Section PerTerm.
Context (formatPeriodLabel : time_window → string).
Context (upstream : nat → request → reply).
Context (timeWindows : list time_window) (metric : string).
Context (githubToken : option string).

Local Abbreviation fetch n term :=
  (fetchTimeSeries formatPeriodLabel upstream n term timeWindows githubToken metric).
Local Abbreviation run terms n results :=
  (for_each_term formatPeriodLabel upstream terms n timeWindows metric
                 githubToken results).

(** One point per window. *)
Lemma length_processTimeSeriesData (d : gmap string Z) :
  length (processTimeSeriesData formatPeriodLabel d timeWindows metric)
  = length timeWindows.
Proof. unfold processTimeSeriesData. apply length_imap. Qed.

(** A fetch makes one request with a token and none without. *)
Lemma fetch_requests n term :
  (fetch n term).2 = match has_token githubToken with Some _ => S n | None => n end.
Proof.
  unfold fetchTimeSeries. destruct (has_token githubToken) as [token|]; [|done].
  destruct (upstream n _) as [body| |]; [|done..]. by destruct (errors body).
Qed.

(** Without a token the fetch fails in the same way whenever it runs. *)
Lemma fetch_without_token n m term :
  has_token githubToken = None → (fetch n term).1 = (fetch m term).1.
Proof. intros Hno. unfold fetchTimeSeries. by rewrite Hno. Qed.

Lemma fetch_series_length n term termData :
  (fetch n term).1 = inl termData → length termData = length timeWindows.
Proof.
  unfold fetchTimeSeries. destruct (has_token githubToken) as [token|]; [|done].
  destruct (upstream n _) as [body| |]; [|done..].
  destruct (errors body); [done|]. intros [= <-].
  apply length_processTimeSeriesData.
Qed.

(** What an assignment does to the own properties. *)
Lemma own_assign t v results term :
  own (assign t v results) !! term =
  if decide (t = "__proto__") then own results !! term
  else if decide (term = t) then Some v else own results !! term.
Proof.
  unfold assign. case_decide; [done|]. simpl. case_decide as Heq.
  - subst. apply lookup_insert_eq.
  - by apply lookup_insert_ne.
Qed.

(** Terms that are not in the list keep their slot. *)
Lemma for_each_term_other terms n results term :
  term ∉ terms → own (run terms n results) !! term = own results !! term.
Proof.
  revert n results. induction terms as [|t terms IH]; intros n results Hnin; [done|].
  apply not_elem_of_cons in Hnin as [Hne Hnin]. simpl.
  destruct (fetch n t) as [r n']. rewrite IH by done.
  rewrite own_assign. by repeat case_decide.
Qed.

(** No term ever becomes an own property named [__proto__]. *)
Lemma for_each_term_proto_own terms n results :
  own (run terms n results) !! "__proto__" = own results !! "__proto__".
Proof.
  revert n results. induction terms as [|t terms IH]; intros n results; [done|].
  simpl. destruct (fetch n t) as [r n']. rewrite IH, own_assign.
  by repeat case_decide.
Qed.

(** The prototype is what the last term named [__proto__] was given. *)
Lemma for_each_term_proto terms n results i :
  terms !! i = Some "__proto__" →
  "__proto__" ∉ drop (S i) terms →
  proto (run terms n results)
  = Some (slot_of (fetch (n + requests_before githubToken i) "__proto__").1).
Proof.
  revert n results i.
  induction terms as [|t terms IH]; intros n results i Hi Hlast; [done|].
  simpl. pose proof (fetch_requests n t) as Hn.
  destruct (fetch n t) as [r n'] eqn:Hf. simpl in Hn.
  destruct i as [|i]; simpl in Hi, Hlast.
  - injection Hi as ->. rewrite drop_0 in Hlast.
    assert (Hkeep : ∀ ts m res, "__proto__" ∉ ts →
              proto (run ts m res) = proto res).
    { clear. induction ts as [|t ts IH]; intros m res Hnin; [done|].
      apply not_elem_of_cons in Hnin as [Hne Hnin]. simpl.
      destruct (fetch m t) as [r m']. rewrite IH by done.
      unfold assign. by rewrite decide_False by done. }
    rewrite Hkeep by done. unfold assign. rewrite decide_True by done. simpl.
    unfold requests_before.
    replace (n + match has_token githubToken with Some _ => 0 | None => 0 end)
      with n by (destruct (has_token githubToken); lia).
    by rewrite Hf.
  - rewrite (IH n' _ i Hi Hlast).
    replace (n' + requests_before githubToken i)
      with (n + requests_before githubToken (S i)); [done|].
    subst n'. unfold requests_before. destruct (has_token githubToken); lia.
Qed.

(** The slot of a term is decided by the fetch at its last position. *)
Lemma for_each_term_last terms n results i term :
  terms !! i = Some term →
  term ∉ drop (S i) terms →
  term ≠ "__proto__" →
  own (run terms n results) !! term
  = Some (slot_of (fetch (n + requests_before githubToken i) term).1).
Proof.
  revert n results i.
  induction terms as [|t terms IH]; intros n results i Hi Hlast Hname; [done|].
  simpl. pose proof (fetch_requests n t) as Hn.
  destruct (fetch n t) as [r n'] eqn:Hf. simpl in Hn.
  destruct i as [|i]; simpl in Hi, Hlast.
  - injection Hi as ->. rewrite drop_0 in Hlast.
    rewrite for_each_term_other by done. rewrite own_assign.
    rewrite decide_False, decide_True by done.
    unfold requests_before.
    replace (n + match has_token githubToken with Some _ => 0 | None => 0 end)
      with n by (destruct (has_token githubToken); lia).
    by rewrite Hf.
  - rewrite (IH n' _ i Hi Hlast Hname).
    replace (n' + requests_before githubToken i)
      with (n + requests_before githubToken (S i)); [done|].
    subst n'. unfold requests_before. destruct (has_token githubToken); lia.
Qed.

(** Every term of the list, [__proto__] apart, has a slot. *)
Lemma for_each_term_is_Some terms n results term :
  term ≠ "__proto__" →
  term ∈ terms ∨ is_Some (own results !! term) →
  is_Some (own (run terms n results) !! term).
Proof.
  intros Hname.
  revert n results. induction terms as [|t terms IH]; intros n results Hin; simpl.
  - destruct Hin as [Hin|?]; [by apply elem_of_nil in Hin | done].
  - destruct (fetch n t) as [r n']. apply IH. rewrite own_assign.
    destruct (decide (term = t)) as [->|Hne].
    + right. by rewrite decide_False by done.
    + case_decide; (destruct Hin as [Hin|?]; [|by right]);
        (apply elem_of_cons in Hin as [?|?]; [done | by left]).
Qed.

(** What [compareSearchTerms] does for every term but [__proto__]: the
    term has a slot among the own properties of the result, and the slot of
    a term is decided by the fetch of that term alone (the one at its last
    position in the list): the error message when that fetch fails, the
    series, one point per window, when it succeeds, whatever happens to the
    other terms.  No term becomes an own property named [__proto__]. *)
Lemma compareSearchTerms_isolates_failures
    (searchTerms : list string) (i : nat) (term : string) :
  searchTerms !! i = Some term →
  term ∉ drop (S i) searchTerms →
  term ≠ "__proto__" →
  let results :=
    compareSearchTerms formatPeriodLabel upstream searchTerms timeWindows
                       metric githubToken in
  (∀ t, t ∈ searchTerms → t ≠ "__proto__" → is_Some (own results !! t)) ∧
  own results !! "__proto__" = None ∧
  match (fetch (requests_before githubToken i) term).1 with
  | inl termData =>
      own results !! term = Some (Series termData) ∧
      length termData = length timeWindows
  | inr e => own results !! term = Some (Failure (message e))
  end.
Proof.
  intros Hi Hlast Hname results. split; [|split].
  - intros t Ht Hne. apply for_each_term_is_Some; [done | by left].
  - subst results. unfold compareSearchTerms. by rewrite for_each_term_proto_own.
  - pose proof (for_each_term_last searchTerms 0 empty_object i term Hi Hlast Hname)
      as Hslot.
    fold (compareSearchTerms formatPeriodLabel upstream searchTerms
            timeWindows metric githubToken) in Hslot.
    fold results in Hslot. simpl in Hslot.
    destruct (fetch (requests_before githubToken i) term).1 as [termData|e] eqn:Hf.
    + split; [done|]. by eapply fetch_series_length.
    + done.
Qed.

(** The term [__proto__] gets no slot: what it was given, series or error,
    becomes the prototype of the result. *)
Lemma compareSearchTerms_proto_term (searchTerms : list string) (i : nat) :
  searchTerms !! i = Some "__proto__" →
  "__proto__" ∉ drop (S i) searchTerms →
  let results :=
    compareSearchTerms formatPeriodLabel upstream searchTerms timeWindows
                       metric githubToken in
  ("__proto__" ∉ Object_keys results) ∧
  proto results
  = Some (slot_of (fetch (requests_before githubToken i) "__proto__").1).
Proof.
  intros Hi Hlast results. subst results. unfold compareSearchTerms. split.
  - unfold Object_keys. rewrite not_elem_of_dom. by rewrite for_each_term_proto_own.
  - by rewrite (for_each_term_proto searchTerms 0 empty_object i Hi Hlast).
Qed.
End PerTerm.

Example compare_A_B :
  let results :=
    compareSearchTerms tw_start upstream_A_fails ["A"; "B"] year_2024
                       "repositories" (Some "ghp_x") in
  own results !! "A"
  = Some (Failure "GitHub GraphQL API returned 502: Bad Gateway") ∧
  own results !! "B" =
    Some (Series [mkTimePoint "2024-01-01" "2024-01-01" "2024-12-31"
                              (Some 12%Z) None None]).
Proof. vm_compute. split; reflexivity. Qed.

Example compare_without_token :
  own (compareSearchTerms tw_start upstream_A_fails ["A"; "B"] year_2024
                          "repositories" None)
  = {[ "A" := Failure "GitHub token is required for time trend analysis";
       "B" := Failure "GitHub token is required for time trend analysis" ]}.
Proof. apply map_eq. intros k. vm_compute. reflexivity. Qed.

(** C8 as stated fails for the search term [__proto__]: of the terms
    [__proto__] and [B], the first of which meets an upstream error, the
    result has an entry for [B] only.  The error of [__proto__] is recorded
    in no slot: it has become the prototype of the result. *)
Theorem compareSearchTerms_loses_proto_term :
  let results :=
    compareSearchTerms tw_start upstream_proto_fails ["__proto__"; "B"] year_2024
                       "repositories" (Some "ghp_x") in
  Object_keys results = {[ "B" ]} ∧
  own results !! "__proto__" = None ∧
  proto results
  = Some (Failure "GitHub GraphQL API returned 502: Bad Gateway") ∧
  own results !! "B" =
    Some (Series [mkTimePoint "2024-01-01" "2024-01-01" "2024-12-31"
                              (Some 12%Z) None None]).
Proof.
  intros results.
  assert (Hown : own results =
    {[ "B" := Series [mkTimePoint "2024-01-01" "2024-01-01" "2024-12-31"
                                  (Some 12%Z) None None] ]}).
  { apply map_eq. intros k. vm_compute. reflexivity. }
  unfold Object_keys. rewrite Hown. split; [by rewrite dom_singleton_L|].
  split; [done|]. split; [by vm_compute | by vm_compute].
Qed.

End TrendProps.

(** * Further properties *)

(** ** The index calculator *)

Module HIndexFacts.
Import HIndex HIndexProps.

(** Two integers that are both the largest [k] with [k] items scoring
    [>= k] are equal. *)
Lemma is_h_index_unique repos p h1 h2 :
  is_h_index repos p h1 → is_h_index repos p h2 → h1 = h2.
Proof.
  intros [Ha1 Hb1] [Ha2 Hb2].
  apply Z.le_antisymm; [by apply Hb2 | by apply Hb1].
Qed.

(** X1: The order in which the items arrive does not matter: the sort inside
    [calculateHIndex] absorbs it. *)
Theorem calculateHIndex_reordering (l1 l2 : list Repo.t) (p : property) :
  l1 ≡ₚ l2 → calculateHIndex l1 p = calculateHIndex l2 p.
Proof.
  intros Hperm. apply Nat2Z.inj.
  apply (is_h_index_unique l2 p); [|apply calculateHIndex_char].
  destruct (calculateHIndex_char p l1) as [Ha Hb]. split.
  - by rewrite <- (count_ge_perm p _ _ _ Hperm).
  - intros k. rewrite <- (count_ge_perm p _ _ _ Hperm). apply Hb.
Qed.

Lemma calculateHIndex_reordering_witness :
  calculateHIndex (scored [3; 10; 4; 8; 5]%Z) stargazers_count
  = calculateHIndex (scored [10; 8; 5; 4; 3]%Z) stargazers_count.
Proof.
  apply calculateHIndex_reordering.
  unfold scored. apply fmap_Permutation.
  apply (bool_decide_unpack _). vm_compute. exact I.
Defined.

(** No item of a non-empty count: some item scores at least [k]. *)
Lemma count_ge_pos p k repos :
  0 < count_ge p k repos → ∃ r, r ∈ repos ∧ (k ≤ get r p)%Z.
Proof.
  unfold count_ge. intros Hpos.
  destruct (filter (λ r, (k ≤ get r p)%Z) repos) as [|r l] eqn:Hf;
    [simpl in Hpos; lia|].
  exists r.
  assert (Hin : r ∈ filter (λ r, (k ≤ get r p)%Z) repos) by (rewrite Hf; left).
  apply list_elem_of_filter in Hin as [? ?]. done.
Qed.

(** X2: The index never exceeds the number of items, nor the highest score
    (it is 0 when no score is positive). *)
Theorem calculateHIndex_bounds (repos : list Repo.t) (p : property) (m : Z) :
  Forall (λ r, (get r p ≤ m)%Z) repos →
  calculateHIndex repos p ≤ length repos ∧
  (Z.of_nat (calculateHIndex repos p) ≤ Z.max 0 m)%Z.
Proof.
  intros Hm. split; [apply calculateHIndex_le_length|].
  destruct (calculateHIndex_char p repos) as [Ha _].
  destruct (decide (calculateHIndex repos p = 0)) as [->|Hpos]; [lia|].
  destruct (count_ge_pos p (Z.of_nat (calculateHIndex repos p)) repos)
    as (r & Hr & Hle); [lia|].
  rewrite Forall_forall in Hm. specialize (Hm r Hr). lia.
Qed.

Lemma calculateHIndex_bounds_witness :
  calculateHIndex (scored [2; 2; 1; 2; 0]%Z) stargazers_count ≤ 5 ∧
  (Z.of_nat (calculateHIndex (scored [2; 2; 1; 2; 0]%Z) stargazers_count)
   ≤ Z.max 0 2)%Z.
Proof.
  apply (calculateHIndex_bounds (scored [2; 2; 1; 2; 0]%Z) stargazers_count 2).
  repeat constructor; simpl; lia.
Defined.

(** X3: Raising scores never lowers the index. *)
Lemma count_ge_raise p k (l1 l2 : list Repo.t) :
  Forall2 (λ a b, (get a p ≤ get b p)%Z) l1 l2 →
  count_ge p k l1 ≤ count_ge p k l2.
Proof.
  induction 1 as [|a b l1 l2 Hab _ IH]; [done|].
  rewrite !count_ge_cons. repeat case_decide; lia.
Qed.

Theorem calculateHIndex_raise (l1 l2 : list Repo.t) (p : property) :
  Forall2 (λ a b, (get a p ≤ get b p)%Z) l1 l2 →
  calculateHIndex l1 p ≤ calculateHIndex l2 p.
Proof.
  intros Hle.
  destruct (calculateHIndex_char p l1) as [Ha _].
  destruct (calculateHIndex_char p l2) as [_ Hb].
  apply Nat2Z.inj_le, Hb.
  pose proof (count_ge_raise p (Z.of_nat (calculateHIndex l1 p)) l1 l2 Hle). lia.
Qed.

Lemma calculateHIndex_raise_witness :
  calculateHIndex (scored [1; 2]%Z) stargazers_count
  ≤ calculateHIndex (scored [5; 2]%Z) stargazers_count.
Proof.
  apply calculateHIndex_raise. repeat constructor; simpl; lia.
Defined.

End HIndexFacts.

(** ** The REST fetch strategy *)

Module RestFacts.
Import HIndex HIndexProps Rest RestProps RestPages.

(** What a page adds to the accumulated list. *)
Lemma repos_body p s data :
  repos (body p s data) = repos s ++ page_items (HttpOk data).
Proof.
  unfold page_items. destruct (items data) as [[|i its]|] eqn:Hit; simpl.
  - rewrite body_empty by auto. simpl. by rewrite app_nil_r.
  - by destruct (body_nonempty p s data i its Hit) as (-> & _).
  - rewrite body_empty by auto. simpl. by rewrite app_nil_r.
Qed.

(** The pages asked for, the replies they got and what comes back. *)
Lemma loop_pages fuel upstream p s :
  match loop fuel upstream p s with
  | (Returned r, log) =>
      Forall (λ k, reply_error (upstream k) = None) log ∧
      res_repos r = repos s ++ (log ≫= λ k, page_items (upstream k))
  | (Threw e, log) =>
      ∃ log' k, log = log' ++ [k] ∧
        Forall (λ k, reply_error (upstream k) = None) log' ∧
        reply_error (upstream k) = Some e
  | (OutOfFuel, _) => True
  end.
Proof.
  revert s. induction fuel as [|fuel IH]; intros s; simpl.
  - destruct (loop_cond s); [done|]. split; [done|]. simpl. by rewrite app_nil_r.
  - destruct (loop_cond s); [|split; [done|]; simpl; by rewrite app_nil_r].
    destruct (upstream (page s)) as [data|st txt|why] eqn:Hup.
    + specialize (IH (body p s data)).
      destruct (loop fuel upstream p (body p s data)) as [[r|e|] log]; [| |done].
      * destruct IH as [Hok Hres]. split.
        -- constructor; [by rewrite Hup | done].
        -- rewrite Hres, repos_body, bind_cons, Hup. by rewrite <- app_assoc.
      * destruct IH as (log' & k & -> & Hok & Hk).
        exists (page s :: log'), k. split; [done|]. split; [|done].
        constructor; [by rewrite Hup | done].
    + exists [], (page s). by rewrite Hup.
    + exists [], (page s). by rewrite Hup.
Qed.

(** X4: A call asks for the pages 1, 2, ... in order.  It returns when all of
    them were answered, with the items of these pages in the order read; it
    throws the error of the first failing reply, which is the last page it
    asked for, and hands out nothing of what it had read. *)
Theorem rest_reads_pages_in_order (upstream : nat → reply) (p : property) (fuel : nat) :
  let log := snd (fetchAndCalculateHIndexREST fuel upstream p) in
  log = seq 1 (length log) ∧
  match fst (fetchAndCalculateHIndexREST fuel upstream p) with
  | Returned r =>
      Forall (λ k, reply_error (upstream k) = None) log ∧
      res_repos r = log ≫= (λ k, page_items (upstream k))
  | Threw e =>
      ∃ log' k, log = log' ++ [k] ∧
        Forall (λ k, reply_error (upstream k) = None) log' ∧
        reply_error (upstream k) = Some e
  | OutOfFuel => True
  end.
Proof.
  unfold fetchAndCalculateHIndexREST. cbn zeta. split.
  - by destruct (loop_log fuel upstream p init) as [Hlog _].
  - pose proof (loop_pages fuel upstream p init) as Hpages.
    by destruct (loop fuel upstream p init) as [[r|e|] log].
Qed.

Lemma length_pages n upstream (log : list nat) :
  pages_within n upstream →
  length (log ≫= λ k, page_items (upstream k)) ≤ n * length log.
Proof.
  intros Hn. induction log as [|k log IH]; [simpl; lia|].
  rewrite bind_cons, length_app. simpl length.
  assert (length (page_items (upstream k)) ≤ n); [|lia].
  unfold page_items. destruct (upstream k) as [data| |] eqn:Hup; simpl; try lia.
  destruct (items data) as [its|] eqn:Hit; simpl; [|lia]. by eapply Hn.
Qed.

(** X5: With pages of at most 100 items a call hands out at most 1000 items. *)
Theorem rest_at_most_1000_items (upstream : nat → reply) (p : property) (fuel : nat) :
  pages_within 100 upstream →
  match fst (fetchAndCalculateHIndexREST fuel upstream p) with
  | Returned r =>
      length (res_repos r) ≤ 1000 ∧ (totalFetched r ≤ 1000)%Z ∧
      hIndex r ≤ 1000
  | _ => True
  end.
Proof.
  intros Hn.
  pose proof (loop_pages fuel upstream p init) as Hres.
  destruct (loop_log fuel upstream p init) as [_ Hlen].
  pose proof (loop_result fuel upstream p init (invariant_init p)) as Hh.
  unfold fetchAndCalculateHIndexREST in *.
  destruct (loop fuel upstream p init) as [[r|e|] log] eqn:Hrun; [|done..].
  simpl in *. destruct Hres as [_ Hrepos].
  pose proof (length_pages 100 upstream log Hn) as Hpages.
  rewrite <- Hrepos in Hpages.
  assert (length (res_repos r) ≤ 1000) by lia.
  split; [done|]. split.
  - assert (Hf : totalFetched r
              = Z.min (res_totalItems r) (Z.of_nat (length (res_repos r)))).
    { revert Hrun. clear. revert log. generalize init.
      induction fuel as [|fuel IH]; intros s log; simpl.
      - destruct (loop_cond s); [done|]. by intros [= <- _].
      - destruct (loop_cond s); [|by intros [= <- _]].
        destruct (upstream (page s)) as [data| |]; [|done..].
        destruct (loop fuel upstream p (body p s data)) as [o l] eqn:Hl.
        intros [= -> _]. by eapply IH. }
    lia.
  - rewrite Hh. pose proof (calculateHIndex_le_length p (res_repos r)). lia.
Qed.

Lemma three_pages_within : pages_within 100 three_pages.
Proof.
  intros k data its [= <-] [= <-]. rewrite length_fmap, length_seqZ.
  destruct (k <=? 2); lia.
Qed.

Lemma rest_at_most_1000_items_witness :
  match fst (fetchAndCalculateHIndexREST 10 three_pages stargazers_count) with
  | Returned r =>
      length (res_repos r) ≤ 1000 ∧ (totalFetched r ≤ 1000)%Z ∧
      hIndex r ≤ 1000
  | _ => True
  end.
Proof.
  apply (rest_at_most_1000_items three_pages stargazers_count 10).
  exact three_pages_within.
Defined.

Lemma exhausted_body p s data :
  exhausted data → hasMoreRepos (body p s data) = false.
Proof.
  unfold exhausted. destruct (items data) as [[|i its]|] eqn:Hit; intros Hshort.
  - by rewrite body_empty by auto.
  - destruct (body_nonempty p s data i its Hit) as (_ & _ & _ & -> & _).
    by destruct (Nat.ltb_spec (length (i :: its)) perPage); [|lia].
  - by rewrite body_empty by auto.
Qed.

Lemma loop_stops_at_short_page fuel upstream p s k data :
  upstream k = HttpOk data →
  exhausted data →
  page s ≤ k →
  Forall (λ n, n ≤ k) (snd (loop fuel upstream p s)).
Proof.
  intros Hk Hshort. revert s. induction fuel as [|fuel IH]; intros s Hs; simpl.
  - by destruct (loop_cond s).
  - destruct (loop_cond s); [|done].
    destruct (upstream (page s)) as [data'| |] eqn:Hup;
      [|by apply Forall_singleton..].
    destruct (decide (page s = k)) as [Heq|Hne].
    + rewrite Heq, Hk in Hup. injection Hup as <-.
      pose proof (exhausted_body p s data Hshort) as Hmore.
      destruct fuel as [|fuel]; simpl; unfold loop_cond; rewrite Hmore; simpl;
        apply Forall_singleton; lia.
    + specialize (IH (body p s data')). rewrite page_body in IH.
      destruct (loop fuel upstream p (body p s data')) as [o log]. simpl in *.
      constructor; [done|]. apply IH. lia.
Qed.

(** X6: Upstream exhaustion: once a page comes back with fewer than 100 items
    (or none), no later page is asked for. *)
Theorem rest_stops_at_short_page
    (upstream : nat → reply) (p : property) (fuel k : nat) (data : page_data) :
  1 ≤ k →
  upstream k = HttpOk data →
  exhausted data →
  Forall (λ n, n ≤ k) (snd (fetchAndCalculateHIndexREST fuel upstream p)).
Proof.
  intros Hk Hup Hshort. unfold fetchAndCalculateHIndexREST.
  by eapply loop_stops_at_short_page.
Qed.

Lemma rest_stops_at_short_page_witness :
  Forall (λ n, n ≤ 3)
         (snd (fetchAndCalculateHIndexREST 10 three_pages stargazers_count)).
Proof.
  apply (rest_stops_at_short_page three_pages stargazers_count 10 3
           {| total_count := 250;
              items := Some (star_item 1000 <$> seqZ 300 50) |}).
  - lia.
  - reflexivity.
  - vm_compute. lia.
Defined.

Example three_pages_log :
  snd (fetchAndCalculateHIndexREST 10 three_pages stargazers_count) = [1; 2; 3].
Proof. by vm_compute. Qed.

End RestFacts.

(** ** The early-termination policy of the REST strategy *)

Module RestPolicyProps.
Import HIndex HIndexProps Rest RestProps RestPages RestFacts RestPolicy.



Section Run.
Context (upstream : nat → reply) (p : property).




End Run.


(** *** The policy at work *)

(** Descending order of stars, decided by evaluation. *)
Lemma sorted_by_stars (l : list Repo.t) :
  bool_decide (StronglySorted (λ x y, (get y stargazers_count
                                       ≤ get x stargazers_count)%Z) l) = true
  ↔ StronglySorted (desc stargazers_count) l.
Proof. by rewrite bool_decide_eq_true. Qed.

Ltac refute_le H := apply Nat.leb_le in H; vm_compute in H; discriminate H.
Ltac refute_lt H := apply Nat.ltb_lt in H; vm_compute in H; discriminate H.
Ltac holds_le := apply Nat.leb_le; by vm_compute.


Lemma thirty_of_thirty_sorted : arrives_sorted stargazers_count thirty_of_thirty.
Proof.
  intros n Hn.
  do 11 (destruct n as [|n]; [apply sorted_by_stars; by vm_compute|]). lia.
Qed.


(** Condition (a) alone: after the first page the policy says to go on,
    and page 2 is asked for; the second page leaves the index at 100 with
    200 items held, and no third page is asked for, although the page was a
    full one and the item at rank 100 has 1000 stars. *)
Example stops_on_stable_index :
  snd (fetchAndCalculateHIndexREST 10 flat_after_first stargazers_count) = [1; 2] ∧
  ¬ policy_stops stargazers_count flat_after_first 1 ∧
  stabilized stargazers_count flat_after_first 2 ∧
  ¬ boundary_reached stargazers_count flat_after_first 2 ∧
  ¬ page_cap_reached 2 ∧
  ¬ upstream_exhausted flat_after_first 2.
Proof.
  assert (H1 : calculateHIndex (fetched flat_after_first 1) stargazers_count = 100)
    by (by vm_compute).
  assert (H2 : calculateHIndex (fetched flat_after_first 2) stargazers_count = 100)
    by (by vm_compute).
  split; [by vm_compute|]. split; [|split; [|split; [|split]]].
  - intros [(_ & H)|[(H & _)|[H|H]]].
    + refute_le H.
    + cbv zeta in H. rewrite H1 in H. refute_le H.
    + refute_le H.
    + refute_lt H.
  - split; [|holds_le]. cbn [Nat.sub]. rewrite H1, H2. lia.
  - intros (_ & (r & Hr & Hs) & _). rewrite H2 in Hr, Hs.
    vm_compute in Hr. injection Hr as <-. vm_compute in Hs. discriminate Hs.
  - intros H. refute_le H.
  - intros H. refute_lt H.
Qed.

(** Condition (b) alone: the first page gives the index 30 with 100 items
    held, the item at rank 30 has 30 stars and there are three times as many
    items as the index; no second page is asked for, although the page was a
    full one and 400 matches remain upstream. *)
Example stops_on_boundary :
  snd (fetchAndCalculateHIndexREST 10 thirty_of_thirty stargazers_count) = [1] ∧
  boundary_reached stargazers_count thirty_of_thirty 1 ∧
  ¬ stabilized stargazers_count thirty_of_thirty 1 ∧
  ¬ page_cap_reached 1 ∧
  ¬ upstream_exhausted thirty_of_thirty 1.
Proof.
  assert (H1 : calculateHIndex (fetched thirty_of_thirty 1) stargazers_count = 30)
    by (by vm_compute).
  split; [by vm_compute|]. split; [|split; [|split]].
  - unfold boundary_reached. cbv zeta. rewrite H1. split; [holds_le|]. split.
    + eexists. split; [by vm_compute | by vm_compute].
    + right. holds_le.
  - intros (_ & H). refute_le H.
  - intros H. refute_le H.
  - intros H. refute_lt H.
Qed.

(** Why the order of arrival matters: the loop reads
    [repos[currentHIndex - 1]], the item at position [currentHIndex] of the
    list as it arrived.  On a first page with 5, 2 and 5 stars the index is
    2 and the second item to arrive has 2 stars, so no second page is asked
    for; by descending score the item at rank 2 has 5 stars, and the policy
    says to go on. *)
Example out_of_order_stops_early :
  snd (fetchAndCalculateHIndexREST 10 out_of_order stargazers_count) = [1] ∧
  ¬ policy_stops stargazers_count out_of_order 1 ∧
  ¬ arrives_sorted stargazers_count out_of_order.
Proof.
  assert (H1 : calculateHIndex (fetched out_of_order 1) stargazers_count = 2)
    by (by vm_compute).
  split; [by vm_compute|]. split.
  - intros [(_ & H)|[(_ & (r & Hr & Hs) & _)|[H|H]]].
    + refute_le H.
    + rewrite H1 in Hr, Hs. vm_compute in Hr. injection Hr as <-.
      vm_compute in Hs. discriminate Hs.
    + refute_le H.
    + refute_lt H.
  - intros H. specialize (H 1 ltac:(lia)). apply sorted_by_stars in H.
    vm_compute in H. discriminate H.
Qed.

End RestPolicyProps.

(** ** The GraphQL fetch strategy *)

Module GraphQLFacts.
Import HIndex HIndexProps GraphQL GraphQLProps GraphQLPages.

Section Loop.
Context (upstream : nat → option string → reply) (p : property).

(** Each page read before the last one brought at least [m] nodes and left
    fewer than 500 items. *)
Lemma loop_pages_read m fuel n s :
  pages_at_least m upstream →
  length (allRepos s) < 500 →
  length (allRepos s) + (length (snd (loop fuel upstream p n s)) - 1) * m < 500.
Proof.
  intros Hm. revert n s. induction fuel as [|fuel IH]; intros n s Hlen; simpl.
  - destruct (hasNextPage s); simpl; lia.
  - destruct (hasNextPage s); [|simpl; lia].
    destruct (upstream n (afterClause s)) as [sd| | |] eqn:Hup; try (simpl; lia).
    pose proof (length_accumulate s sd) as Hacc.
    destruct (found_enough p (accumulate s sd)); [simpl; lia|].
    unfold cap_reached.
    destruct (Nat.leb_spec 500 (length (allRepos (accumulate s sd))));
      [simpl; lia|].
    specialize (IH (n + 1) (accumulate s sd) ltac:(lia)).
    destruct (loop fuel upstream p (n + 1) (accumulate s sd)) as [o visited] eqn:Hl.
    cbn [snd length] in *.
    destruct (pi_hasNextPage (page_info sd)) eqn:Hnext.
    + pose proof (Hm _ _ _ Hup Hnext). destruct visited; simpl in *; nia.
    + assert (visited = []) as ->; [|simpl; lia].
      destruct fuel; simpl in Hl; rewrite Hnext in Hl; by injection Hl.
Qed.

(** Enough fuel for the items still missing to 500. *)
Lemma loop_ends m fuel n s :
  pages_at_least m upstream →
  length (allRepos s) < 500 →
  500 ≤ length (allRepos s) + fuel * m →
  ended (fst (loop fuel upstream p n s)) = true.
Proof.
  intros Hm. revert n s. induction fuel as [|fuel IH]; intros n s Hlen Hfuel; simpl.
  - lia.
  - destruct (hasNextPage s); [|done].
    destruct (upstream n (afterClause s)) as [sd| | |] eqn:Hup; try done.
    pose proof (length_accumulate s sd) as Hacc.
    destruct (found_enough p (accumulate s sd)); [done|].
    unfold cap_reached.
    destruct (Nat.leb_spec 500 (length (allRepos (accumulate s sd)))); [done|].
    destruct (pi_hasNextPage (page_info sd)) eqn:Hnext.
    + pose proof (Hm _ _ _ Hup Hnext).
      specialize (IH (n + 1) (accumulate s sd) ltac:(lia) ltac:(nia)).
      by destruct (loop fuel upstream p (n + 1) (accumulate s sd)).
    + destruct fuel; simpl; rewrite Hnext; done.
Qed.

(** Pages without nodes leave the loop where it is. *)
Lemma loop_stalled fuel n s :
  stalls upstream →
  hasNextPage s = true →
  length (allRepos s) < 100 →
  fst (loop fuel upstream p n s) = OutOfFuel.
Proof.
  intros Hst. revert n s. induction fuel as [|fuel IH]; intros n s Hnext Hlen; simpl.
  - by rewrite Hnext.
  - rewrite Hnext. destruct (Hst n (afterClause s)) as (sd & -> & Hnodes & Hmore).
    pose proof (length_accumulate s sd) as Hacc. rewrite Hnodes in Hacc.
    change (length (@nil node)) with 0 in Hacc. rewrite Nat.add_0_r in Hacc.
    unfold found_enough, cap_reached. rewrite Hacc.
    destruct (Nat.leb_spec 100 (length (allRepos s))); [lia|].
    destruct (Nat.leb_spec 500 (length (allRepos s))); [lia|].
    rewrite andb_false_r.
    specialize (IH (n + 1) (accumulate s sd) Hmore ltac:(lia)).
    by destruct (loop fuel upstream p (n + 1) (accumulate s sd)).
Qed.

(** What a returning loop hands out, and why it stopped. *)
Lemma loop_return fuel n s r :
  fst (loop fuel upstream p n s) = Returned r →
  (snd (loop fuel upstream p n s) = [] ∧ hasNextPage s = false ∧ r = finish p s) ∨
  (∃ s', last (snd (loop fuel upstream p n s)) = Some s' ∧
         r = finish p s' ∧ stop_reason p s').
Proof.
  revert n s. induction fuel as [|fuel IH]; intros n s; simpl.
  - destruct (hasNextPage s) eqn:Hnext; [done|]. intros [= <-]. by left.
  - destruct (hasNextPage s) eqn:Hnext; [|intros [= <-]; by left].
    destruct (upstream n (afterClause s)) as [sd| | |] eqn:Hup; try done.
    destruct (found_enough p (accumulate s sd)) eqn:Hfound.
    { intros [= <-]. right. exists (accumulate s sd). split; [done|].
      split; [done|]. right. left.
      apply andb_true_iff in Hfound as [H3 H100].
      apply Nat.leb_le in H3, H100. lia. }
    destruct (cap_reached (accumulate s sd)) eqn:Hcap.
    { intros [= <-]. right. exists (accumulate s sd). split; [done|].
      split; [done|]. right. right. by apply Nat.leb_le in Hcap. }
    specialize (IH (n + 1) (accumulate s sd)).
    destruct (loop fuel upstream p (n + 1) (accumulate s sd)) as [o visited].
    cbn [fst snd] in *. intros ->. right.
    destruct (IH eq_refl) as [(-> & Hlast & ->)|(s' & Hlast & -> & Hwhy)].
    + exists (accumulate s sd). split; [done|]. split; [done|]. by left.
    + exists s'. split; [|done]. destruct visited; [done|]. done.
Qed.
End Loop.

(** X7: Termination needs progress: when every page that announces a next one
    brings at least [m >= 1] nodes, the loop ends within any fuel [f] with
    [f * m >= 500], and the pages read before the last one number fewer
    than [500 / m] (at most 5 pages in all when pages are full). *)
Theorem graphql_terminates_on_progress
    (upstream : nat → option string → reply) (p : property) (m fuel : nat) :
  pages_at_least m upstream →
  500 ≤ fuel * m →
  ended (fst (fetchAndCalculateHIndexGraphQL fuel upstream p)) = true ∧
  (length (snd (fetchAndCalculateHIndexGraphQL fuel upstream p)) - 1) * m < 500.
Proof.
  intros Hm Hfuel. unfold fetchAndCalculateHIndexGraphQL. split.
  - apply (loop_ends upstream p m); [done | simpl; lia | simpl; lia].
  - pose proof (loop_pages_read upstream p m fuel 0 init Hm) as Hread.
    simpl in Hread. apply Hread. lia.
Qed.

Lemma pages_of_100_at_least : pages_at_least 100 pages_of_100.
Proof. intros n after sd [= <-] _. vm_compute. lia. Qed.

Lemma graphql_terminates_on_progress_witness :
  ended (fst (fetchAndCalculateHIndexGraphQL 5 pages_of_100 stargazers_count)) = true ∧
  (length (snd (fetchAndCalculateHIndexGraphQL 5 pages_of_100 stargazers_count)) - 1)
    * 100 < 500.
Proof.
  apply (graphql_terminates_on_progress pages_of_100 stargazers_count 100 5).
  - exact pages_of_100_at_least.
  - lia.
Defined.

(** X8: There is no cap on requests: a transport that keeps announcing a next
    page without sending nodes keeps the loop running for ever. *)
Theorem graphql_never_ends_on_empty_pages
    (upstream : nat → option string → reply) (p : property) (fuel : nat) :
  stalls upstream →
  fst (fetchAndCalculateHIndexGraphQL fuel upstream p) = OutOfFuel.
Proof.
  intros Hst. unfold fetchAndCalculateHIndexGraphQL.
  apply loop_stalled; [done | done | simpl; lia].
Qed.

Lemma empty_pages_stall : stalls empty_pages.
Proof. intros n after. by eexists. Qed.

Lemma graphql_never_ends_on_empty_pages_witness :
  fst (fetchAndCalculateHIndexGraphQL 1000 empty_pages forks_count) = OutOfFuel.
Proof.
  apply (graphql_never_ends_on_empty_pages empty_pages forks_count 1000).
  exact empty_pages_stall.
Defined.

(** X9: A returning call hands out the collection of the last page read, its
    index and its size; it stopped because the cursor had no next page, or
    it held at least 100 items and three times the index, or it held 500
    items. *)
Theorem graphql_result
    (upstream : nat → option string → reply) (p : property) (fuel : nat) :
  match fetchAndCalculateHIndexGraphQL fuel upstream p with
  | (Returned r, visited) =>
      ∃ s, last visited = Some s ∧
        repos r = allRepos s ∧
        totalItems r = totalCount s ∧
        hIndex r = calculateHIndex (repos r) p ∧
        totalFetched r = length (repos r) ∧
        hIndex r ≤ totalFetched r ∧
        stop_reason p s
  | _ => True
  end.
Proof.
  unfold fetchAndCalculateHIndexGraphQL.
  pose proof (loop_return upstream p fuel 0 init) as Hret.
  destruct (loop fuel upstream p 0 init) as [[r| |] visited]; [|done..].
  destruct (Hret r eq_refl) as [(_ & Hnext & _)|(s & Hlast & -> & Hwhy)];
    [done|].
  exists s. repeat split; try done. simpl.
  apply calculateHIndex_le_length.
Qed.

End GraphQLFacts.

(** ** The time window generator *)

Module WindowsFacts.
Import Windows WindowsProps Calendar.

(** Sortedness of a list built by [flatMap]-like nesting of loops. *)
Lemma StronglySorted_bind {A B} (R' : relation A) (R : relation B)
    (f : A → list B) (l : list A) :
  StronglySorted R' l →
  (∀ y, y ∈ l → StronglySorted R (f y)) →
  (∀ y1 y2 x1 x2, R' y1 y2 → x1 ∈ f y1 → x2 ∈ f y2 → R x1 x2) →
  StronglySorted R (l ≫= f).
Proof.
  intros Hl Hf Hcross. induction Hl as [|y l Hl IH Hy]; [constructor|].
  rewrite bind_cons. apply StronglySorted_app_2.
  - intros x1 x2 Hx1 Hx2. apply list_elem_of_bind in Hx2 as (y2 & Hx2 & Hy2).
    rewrite Forall_forall in Hy. eauto.
  - apply Hf. left.
  - apply IH. intros y' Hy'. apply Hf. by right.
Qed.

Lemma seqZ_sorted (m n : Z) : StronglySorted Z.lt (seqZ m n).
Proof.
  destruct (decide (n ≤ 0)%Z) as [Hn|Hn]; [rewrite seqZ_nil by done; constructor|].
  rewrite <- (Z2Nat.id n) by lia. generalize (Z.to_nat n). clear. intros k.
  revert m. induction k as [|k IH]; intros m.
  - rewrite seqZ_nil by done. constructor.
  - rewrite seqZ_cons by lia. constructor.
    + replace (Z.pred (Z.of_nat (S k))) with (Z.of_nat k) by lia. apply IH.
    + apply Forall_forall. intros x Hx%elem_of_seqZ. lia.
Qed.

Lemma endDay_bounds (y m : Z) : (28 ≤ endDay y m ≤ 31)%Z.
Proof.
  unfold endDay. destruct (m =? 2)%Z; [destruct (isLeapYear y); lia|].
  case_bool_decide; lia.
Qed.

(** Zero or one window, as the loop bodies push. *)
Lemma sorted_option (P : Prop) `{Decision P} (w : window) :
  StronglySorted precedes (if decide P then [] else [w]).
Proof. case_decide; repeat constructor. Qed.

(** X10: The windows come in chronological order and do not overlap: each one
    ends before the next one starts.  Each starts on the first day of a
    month and ends in the same year, not before it starts. *)
Theorem windows_chronological
    (currentDate : js_date) (startYear endYear : Z) (granularity : string) :
  StronglySorted precedes
    (generateTimeWindows currentDate startYear endYear granularity) ∧
  Forall well_formed
    (generateTimeWindows currentDate startYear endYear granularity).
Proof.
  destruct (decide (granularity = "year")) as [->|Hy].
  { split.
    - unfold generateTimeWindows. rewrite decide_True by done.
      apply (StronglySorted_bind Z.lt); [apply seqZ_sorted | |].
      + intros y _. apply sorted_option.
      + intros y1 y2 w1 w2 Hlt Hw1 Hw2.
        repeat case_decide; try by apply elem_of_nil in Hw1.
        all: try by apply elem_of_nil in Hw2.
        apply list_elem_of_singleton in Hw1 as ->.
        apply list_elem_of_singleton in Hw2 as ->.
        unfold precedes, date_lt. simpl. lia.
    - apply Forall_forall. intros w (y & _ & _ & ->)%elem_of_year_windows.
      unfold well_formed, date_le. simpl. lia. }
  destruct (decide (granularity = "quarter")) as [->|Hq].
  { split.
    - unfold generateTimeWindows. rewrite decide_False, decide_True by done.
      apply (StronglySorted_bind Z.lt); [apply seqZ_sorted | |].
      + intros y _. apply (StronglySorted_bind Z.lt); [apply seqZ_sorted | |].
        * intros q _. apply sorted_option.
        * intros q1 q2 w1 w2 Hlt Hw1 Hw2.
          repeat case_decide; try by apply elem_of_nil in Hw1.
          all: try by apply elem_of_nil in Hw2.
          apply list_elem_of_singleton in Hw1 as ->.
          apply list_elem_of_singleton in Hw2 as ->.
          unfold precedes, date_lt. simpl. lia.
      + intros y1 y2 w1 w2 Hlt Hw1 Hw2.
        apply list_elem_of_bind in Hw1 as (q1 & Hw1 & _).
        apply list_elem_of_bind in Hw2 as (q2 & Hw2 & _).
        repeat case_decide; try by apply elem_of_nil in Hw1.
        all: try by apply elem_of_nil in Hw2.
        apply list_elem_of_singleton in Hw1 as ->.
        apply list_elem_of_singleton in Hw2 as ->.
        unfold precedes, date_lt. simpl. lia.
    - apply Forall_forall.
      intros w (y & q & _ & ? & _ & ->)%elem_of_quarter_windows.
      unfold well_formed, date_le. simpl. lia. }
  destruct (decide (granularity = "month")) as [->|Hm].
  { split.
    - unfold generateTimeWindows. rewrite !decide_False, decide_True by done.
      apply (StronglySorted_bind Z.lt); [apply seqZ_sorted | |].
      + intros y _. apply (StronglySorted_bind Z.lt); [apply seqZ_sorted | |].
        * intros m _. apply sorted_option.
        * intros m1 m2 w1 w2 Hlt Hw1 Hw2.
          repeat case_decide; try by apply elem_of_nil in Hw1.
          all: try by apply elem_of_nil in Hw2.
          apply list_elem_of_singleton in Hw1 as ->.
          apply list_elem_of_singleton in Hw2 as ->.
          unfold precedes, date_lt. simpl. lia.
      + intros y1 y2 w1 w2 Hlt Hw1 Hw2.
        apply list_elem_of_bind in Hw1 as (m1 & Hw1 & _).
        apply list_elem_of_bind in Hw2 as (m2 & Hw2 & _).
        repeat case_decide; try by apply elem_of_nil in Hw1.
        all: try by apply elem_of_nil in Hw2.
        apply list_elem_of_singleton in Hw1 as ->.
        apply list_elem_of_singleton in Hw2 as ->.
        unfold precedes, date_lt. simpl. lia.
    - apply Forall_forall.
      intros w (y & m & _ & ? & _ & ->)%elem_of_month_windows.
      pose proof (endDay_bounds y m).
      unfold well_formed, date_le. simpl. lia. }
  rewrite other_granularity by done. split; constructor.
Qed.

(** X11: Nothing of the current year or of an earlier one is emitted unless it is
    over: such a window ends before today. *)
Theorem emitted_past_windows_are_over
    (currentDate : js_date) (startYear endYear : Z) (granularity : string)
    (w : window) :
  w ∈ generateTimeWindows currentDate startYear endYear granularity →
  (year (w_end w) ≤ getFullYear currentDate)%Z →
  date_lt (w_end w) (today currentDate).
Proof.
  intros Hw.
  destruct (decide (granularity = "year")) as [->|Hy].
  { apply elem_of_year_windows in Hw as (y & _ & Hne & ->).
    unfold date_lt, today. simpl. lia. }
  destruct (decide (granularity = "quarter")) as [->|Hq].
  { apply elem_of_quarter_windows in Hw as (y & q & _ & _ & Hskip & ->).
    pose proof (ceil_div_3_bounds (getMonth currentDate + 1)).
    unfold date_lt, today. simpl. lia. }
  destruct (decide (granularity = "month")) as [->|Hm].
  { apply elem_of_month_windows in Hw as (y & m & _ & _ & Hskip & ->).
    unfold date_lt, today. simpl. lia. }
  rewrite other_granularity in Hw by done. by apply elem_of_nil in Hw.
Qed.

Lemma emitted_past_windows_are_over_witness :
  date_lt (w_end (month_window 2026 10)) (today (mkJsDate 2026 10 2)).
Proof.
  apply (emitted_past_windows_are_over (mkJsDate 2026 10 2) 2026 2026 "month").
  - vm_compute. do 9 right. left.
  - simpl. lia.
Defined.

(** *** How many windows *)

Lemma length_bind_const {A B} (f : A → list B) (l : list A) (c : nat) :
  (∀ y, y ∈ l → length (f y) = c) → length (l ≫= f) = c * length l.
Proof.
  induction l as [|y l IH]; intros Hc; [simpl; lia|].
  rewrite bind_cons, length_app, IH, (Hc y); [simpl; lia|left|].
  intros y' Hy'. apply Hc. by right.
Qed.

Lemma seqZ_succ (m k : Z) : (0 ≤ k)%Z → seqZ m (Z.succ k) = seqZ m k ++ [(m + k)%Z].
Proof.
  intros Hk. replace (Z.succ k) with (k + 1)%Z by lia.
  rewrite seqZ_app by lia. by f_equal.
Qed.

(** The periods of the current year that the loop body lets through: those
    numbered below [c]. *)
Lemma length_periods_before (P : Prop) `{Decision P} (c k : Z) (f : Z → window) :
  P → (0 ≤ k)%Z →
  Z.of_nat (length (seqZ 1 k ≫= λ q, if decide (P ∧ (c ≤ q)%Z) then [] else [f q]))
  = Z.min k (Z.max 0 (c - 1)).
Proof.
  intros HP Hk. revert k Hk. apply natlike_ind;
    [rewrite seqZ_nil by done; simpl; lia|].
  intros k Hk IH. rewrite seqZ_succ, bind_app, length_app, Nat2Z.inj_add, IH by done.
  rewrite bind_singleton.
  destruct (decide (P ∧ (c ≤ 1 + k)%Z)) as [[_ ?]|Hn];
    [|assert (¬ (c ≤ 1 + k)%Z) by tauto]; simpl; lia.
Qed.

Lemma years_split (startYear endYear y : Z) :
  (startYear ≤ y ≤ endYear)%Z →
  years startYear endYear
  = seqZ startYear (y - startYear) ++ [y] ++ seqZ (y + 1) (endYear - y).
Proof.
  intros Hy. unfold years.
  replace (endYear - startYear + 1)%Z
    with ((y - startYear) + (1 + (endYear - y)))%Z by lia.
  rewrite seqZ_app by lia. f_equal.
  replace (startYear + (y - startYear))%Z with y by lia.
  rewrite seqZ_cons by lia. simpl. f_equal. f_equal; lia.
Qed.

(** X12: When the current year is not among the requested ones, every year
    gives one, four or twelve windows; none at all when [startYear] is
    after [endYear]. *)
Theorem windows_count_other_years
    (currentDate : js_date) (startYear endYear : Z) :
  ¬ (startYear ≤ getFullYear currentDate ≤ endYear)%Z →
  let n := Z.to_nat (endYear - startYear + 1) in
  length (generateTimeWindows currentDate startYear endYear "year") = n ∧
  length (generateTimeWindows currentDate startYear endYear "quarter") = 4 * n ∧
  length (generateTimeWindows currentDate startYear endYear "month") = 12 * n.
Proof.
  intros Hout n.
  assert (Hlen : length (years startYear endYear) = n)
    by (unfold years; apply length_seqZ).
  unfold generateTimeWindows. split; [|split].
  - rewrite decide_True by done.
    rewrite (length_bind_const _ _ 1); [lia|].
    intros y Hy%(elem_of_years currentDate). by rewrite decide_False by lia.
  - rewrite decide_False, decide_True by done.
    rewrite (length_bind_const _ _ 4); [lia|].
    intros y Hy%(elem_of_years currentDate).
    rewrite (length_bind_const _ _ 1); [done|].
    intros q _. by rewrite decide_False by lia.
  - rewrite !decide_False, decide_True by done.
    rewrite (length_bind_const _ _ 12); [lia|].
    intros y Hy%(elem_of_years currentDate).
    rewrite (length_bind_const _ _ 1); [done|].
    intros q _. by rewrite decide_False by lia.
Qed.

Lemma windows_count_other_years_witness :
  length (generateTimeWindows (mkJsDate 2026 10 2) 2020 2024 "year") = 5 ∧
  length (generateTimeWindows (mkJsDate 2026 10 2) 2020 2024 "quarter") = 4 * 5 ∧
  length (generateTimeWindows (mkJsDate 2026 10 2) 2020 2024 "month") = 12 * 5.
Proof.
  apply (windows_count_other_years (mkJsDate 2026 10 2) 2020 2024).
  simpl. lia.
Defined.

(** The windows of a range of years around the current one: [c] per other
    year, and what the current year lets through. *)
Lemma length_years_bind (f : Z → list window) (startYear endYear y : Z) (c : nat) :
  (startYear ≤ y ≤ endYear)%Z →
  (∀ y', y' ≠ y → length (f y') = c) →
  Z.of_nat (length (years startYear endYear ≫= f))
  = (Z.of_nat c * (endYear - startYear) + Z.of_nat (length (f y)))%Z.
Proof.
  intros Hy Hc. rewrite (years_split startYear endYear y Hy).
  rewrite !bind_app, !length_app, bind_singleton.
  rewrite !(length_bind_const f _ c), !length_seqZ.
  - rewrite !Nat2Z.inj_add, !Nat2Z.inj_mul, !Z2Nat.id by lia. nia.
  - intros y' Hy'%elem_of_seqZ. apply Hc. lia.
  - intros y' Hy'%elem_of_seqZ. apply Hc. lia.
Qed.

(** X13: When the current year is among the requested ones, it gives no year
    window, one quarter window per quarter that is over and one month
    window per month that is over. *)
Theorem windows_count_current_year
    (currentDate : js_date) (startYear endYear : Z) :
  (startYear ≤ getFullYear currentDate ≤ endYear)%Z →
  (0 ≤ getMonth currentDate ≤ 11)%Z →
  Z.of_nat (length (generateTimeWindows currentDate startYear endYear "year"))
  = (endYear - startYear)%Z ∧
  Z.of_nat (length (generateTimeWindows currentDate startYear endYear "quarter"))
  = (4 * (endYear - startYear) + getMonth currentDate / 3)%Z ∧
  Z.of_nat (length (generateTimeWindows currentDate startYear endYear "month"))
  = (12 * (endYear - startYear) + getMonth currentDate)%Z.
Proof.
  intros Hy Hm. unfold generateTimeWindows. split; [|split].
  - rewrite decide_True by done.
    rewrite (length_years_bind _ _ _ (getFullYear currentDate) 1 Hy).
    + rewrite decide_True by done. simpl. lia.
    + intros y' Hne. by rewrite decide_False by done.
  - rewrite decide_False, decide_True by done.
    rewrite (length_years_bind _ _ _ (getFullYear currentDate) 4 Hy).
    + rewrite (length_periods_before _ _ 4) by done.
      pose proof (ceil_div_3_bounds (getMonth currentDate + 1)).
      pose proof (Z.div_mod (getMonth currentDate) 3 ltac:(lia)).
      pose proof (Z.mod_pos_bound (getMonth currentDate) 3 ltac:(lia)). lia.
    + intros y' Hne. rewrite (length_bind_const _ _ 1); [done|].
      intros q _. rewrite decide_False; [done|]. by intros [? _].
  - rewrite !decide_False, decide_True by done.
    rewrite (length_years_bind _ _ _ (getFullYear currentDate) 12 Hy).
    + rewrite (length_periods_before _ _ 12) by done. lia.
    + intros y' Hne. rewrite (length_bind_const _ _ 1); [done|].
      intros q _. rewrite decide_False; [done|]. by intros [? _].
Qed.

Lemma windows_count_current_year_witness :
  Z.of_nat (length (generateTimeWindows (mkJsDate 2026 10 2) 2024 2026 "year"))
  = (2026 - 2024)%Z ∧
  Z.of_nat (length (generateTimeWindows (mkJsDate 2026 10 2) 2024 2026 "quarter"))
  = (4 * (2026 - 2024) + 10 / 3)%Z ∧
  Z.of_nat (length (generateTimeWindows (mkJsDate 2026 10 2) 2024 2026 "month"))
  = (12 * (2026 - 2024) + 10)%Z.
Proof.
  apply (windows_count_current_year (mkJsDate 2026 10 2) 2024 2026); simpl; lia.
Defined.

End WindowsFacts.

(** ** Granularity and labels of generated windows *)

Module LabelsFacts.
Import Windows WindowsProps Trend Labels.

Section Platform.
Context (Date : string → js_date).
Context (monthShort : Z → string) (toLocaleDateString : js_date → string).

(** The first window of a generated list, by its granularity. *)
Lemma generated_window currentDate startYear endYear granularity w :
  w ∈ generateTimeWindows currentDate startYear endYear granularity →
  (granularity = "year" ∧ ∃ y, w = year_window y) ∨
  (granularity = "quarter" ∧ ∃ y q, (1 ≤ q ≤ 4)%Z ∧ w = quarter_window y q) ∨
  (granularity = "month" ∧ ∃ y m, (1 ≤ m ≤ 12)%Z ∧ w = month_window y m).
Proof.
  intros Hw.
  destruct (decide (granularity = "year")) as [->|Hy].
  { apply elem_of_year_windows in Hw as (y & _ & _ & ->). left. eauto. }
  destruct (decide (granularity = "quarter")) as [->|Hq].
  { apply elem_of_quarter_windows in Hw as (y & q & _ & ? & _ & ->).
    right. left. eauto. }
  destruct (decide (granularity = "month")) as [->|Hm].
  { apply elem_of_month_windows in Hw as (y & m & _ & ? & _ & ->).
    right. right. eauto. }
  rewrite other_granularity in Hw by done. by apply elem_of_nil in Hw.
Qed.

Ltac decide_tests :=
  repeat match goal with
  | |- context [(?a =? ?b)%Z] => destruct (Z.eqb_spec a b); try lia; simpl
  end.

(** X14: The generator and the detector agree: a non-empty list of generated
    windows is recognised as of the granularity it was generated with,
    provided [Date] reads the two date strings of the first window back as
    the days they spell. *)
Theorem generated_granularity_is_recognised
    (currentDate : js_date) (startYear endYear : Z) (granularity : string)
    (w : window) (ws : list window) :
  generateTimeWindows currentDate startYear endYear granularity = w :: ws →
  reads_back Date (w_start w) →
  reads_back Date (w_end w) →
  getGranularityFromWindows Date (of_window <$> (w :: ws)) = granularity.
Proof.
  intros Hgen Hs He.
  assert (Hw : w ∈ generateTimeWindows currentDate startYear endYear granularity)
    by (rewrite Hgen; left).
  unfold reads_back in *. rewrite fmap_cons. unfold getGranularityFromWindows.
  cbn [of_window tw_start tw_end]. rewrite Hs, He.
  apply generated_window in Hw
    as [(-> & y & ->)|[(-> & y & q & Hq & ->)|(-> & y & m & Hm & ->)]]; simpl.
  - by rewrite Z.eqb_refl.
  - decide_tests; done.
  - decide_tests; done.
Qed.

(** X15: The label of a generated window names its period: the year, [Qn] and
    the year, or the month and the year. *)
Theorem generated_window_label
    (currentDate : js_date) (startYear endYear : Z) (granularity : string)
    (w : window) :
  w ∈ generateTimeWindows currentDate startYear endYear granularity →
  reads_back Date (w_start w) →
  reads_back Date (w_end w) →
  formatPeriodLabel Date monthShort toLocaleDateString (of_window w) =
    if decide (granularity = "year") then pretty (year (w_start w))
    else if decide (granularity = "quarter")
    then "Q" +:+ pretty (month (w_end w) / 3)%Z +:+ " " +:+ pretty (year (w_start w))
    else monthShort (month (w_start w) - 1)%Z +:+ " " +:+ pretty (year (w_start w)).
Proof.
  intros Hw Hs He. unfold reads_back in *. unfold formatPeriodLabel.
  cbn [of_window tw_start tw_end]. rewrite Hs, He.
  apply generated_window in Hw
    as [(-> & y & ->)|[(-> & y & q & Hq & ->)|(-> & y & m & Hm & ->)]]; simpl.
  - rewrite Z.eqb_refl. simpl. done.
  - rewrite Z.eqb_refl. simpl.
    replace ((q - 1) * 3 + 1 - 1)%Z with ((q - 1) * 3)%Z by lia.
    replace (q * 3 - 1)%Z with (2 + (q - 1) * 3)%Z by lia.
    rewrite Z.div_mul, Z.div_add by lia.
    replace (q * 3 / 3)%Z with q by (rewrite Z.div_mul; lia).
    change (2 / 3)%Z with 0%Z.
    decide_tests. by replace (q - 1 + 1)%Z with q by lia.
  - rewrite !Z.eqb_refl. simpl. done.
Qed.
End Platform.

Lemma generated_granularity_is_recognised_witness :
  getGranularityFromWindows Date_2024
    (of_window <$> (year_window 2024 :: [year_window 2025])) = "year".
Proof.
  apply (generated_granularity_is_recognised Date_2024 (mkJsDate 2026 10 2)
           2024 2025 "year").
  - reflexivity.
  - reflexivity.
  - reflexivity.
Defined.

Lemma generated_window_label_witness :
  formatPeriodLabel Date_2024 (λ _, "Jan") (λ _, "1/1/2024")
                    (of_window (year_window 2024)) =
    if decide ("year" = "year") then pretty (year (w_start (year_window 2024)))
    else if decide ("year" = "quarter")
    then "Q" +:+ pretty (month (w_end (year_window 2024)) / 3)%Z +:+ " "
         +:+ pretty (year (w_start (year_window 2024)))
    else (λ _, "Jan") (month (w_start (year_window 2024)) - 1)%Z +:+ " "
         +:+ pretty (year (w_start (year_window 2024))).
Proof.
  apply (generated_window_label Date_2024 (λ _, "Jan") (λ _, "1/1/2024")
           (mkJsDate 2026 10 2) 2024 2025 "year").
  - left.
  - reflexivity.
  - reflexivity.
Defined.

End LabelsFacts.

(** ** Batched counts *)

Module BatchFacts.
Import Trend TrendProps Batch.

Lemma is_digit_pretty_N_char (x : N) : is_digit (pretty_N_char x) = true.
Proof. unfold pretty_N_char. by repeat case_match. Qed.

Lemma pretty_N_go_digits (x : N) (s : string) :
  all_digits s = true → all_digits (pretty_N_go x s) = true.
Proof.
  revert s. induction (N.lt_wf_0 x) as [x _ IH]; intros s Hs.
  destruct (decide (x = 0)%N) as [->|Hx]; [by rewrite pretty_N_go_0|].
  rewrite pretty_N_go_step by lia. apply IH; [apply N.div_lt; lia|].
  simpl. by rewrite is_digit_pretty_N_char.
Qed.

Lemma pretty_nat_digits (n : nat) : all_digits (pretty n) = true.
Proof.
  unfold pretty, pretty_nat, pretty, pretty_N.
  case_decide; [done|]. by apply pretty_N_go_digits.
Qed.

Lemma append_cons (c : Ascii.ascii) (s t : string) :
  String c s +:+ t = String c (s +:+ t).
Proof. done. Qed.

Lemma append_assoc (a b c : string) : (a +:+ b) +:+ c = a +:+ (b +:+ c).
Proof. induction a as [|x a IH]; [done|]. rewrite !append_cons. by f_equal. Qed.

Lemma append_empty_r (a : string) : a +:+ EmptyString = a.
Proof. induction a as [|x a IH]; [done|]. rewrite append_cons. by f_equal. Qed.

(** A run of digits is determined by what follows it. *)
Lemma digits_then_suffix (a b suf suf' : string) :
  all_digits a = true → all_digits b = true →
  no_leading_digit suf → no_leading_digit suf' →
  a +:+ suf = b +:+ suf' → a = b ∧ suf = suf'.
Proof.
  revert b. induction a as [|c a IH]; intros [|c' b] Ha Hb Hs Hs' Heq.
  - done.
  - change (EmptyString +:+ suf) with suf in Heq. rewrite append_cons in Heq. subst suf.
    simpl in Hb, Hs. apply andb_true_iff in Hb as [Hc _]. congruence.
  - change (EmptyString +:+ suf') with suf' in Heq. rewrite append_cons in Heq. subst suf'.
    simpl in Ha, Hs'. apply andb_true_iff in Ha as [Hc _]. congruence.
  - rewrite !append_cons in Heq. injection Heq as -> Heq.
    simpl in Ha, Hb. apply andb_true_iff in Ha as [_ Ha].
    apply andb_true_iff in Hb as [_ Hb].
    destruct (IH b Ha Hb Hs Hs' Heq) as [-> ->]. done.
Qed.

(** An alias tells the index of its window and the kind of its count. *)
Lemma alias_inj (i j : nat) (suf suf' : string) :
  no_leading_digit suf → no_leading_digit suf' →
  periodAlias i +:+ suf = periodAlias j +:+ suf' → i = j ∧ suf = suf'.
Proof.
  intros Hs Hs'. unfold periodAlias.
  rewrite !append_assoc. intros Heq%(inj (String.app "period")).
  apply digits_then_suffix in Heq as [Hp ->]; auto using pretty_nat_digits.
  split; [|done]. by apply (inj pretty).
Qed.

Lemma alias_inj_plain (i j : nat) (suf' : string) :
  no_leading_digit suf' →
  periodAlias i = periodAlias j +:+ suf' → i = j ∧ suf' = EmptyString.
Proof.
  intros Hs' Heq. rewrite <- (append_empty_r (periodAlias i)) in Heq.
  by apply alias_inj in Heq as [-> <-].
Qed.

Section Demultiplex.
Context (searchTerm metric : string) (timeWindows : list time_window).

Lemma elem_of_subqueries sq :
  sq ∈ subqueries searchTerm timeWindows metric ↔
  ∃ i w, timeWindows !! i = Some w ∧ sq ∈ window_subqueries searchTerm metric i w.
Proof.
  unfold subqueries. rewrite list_elem_of_join. split.
  - intros (l & Hsq & (i & w & -> & Hw)%elem_of_lookup_imap). eauto.
  - intros (i & w & Hw & Hsq). eexists. split; [done|].
    by apply elem_of_lookup_imap_2.
Qed.

Lemma window_subquery_shape sq i w :
  sq ∈ window_subqueries searchTerm metric i w ↔
  sq = repo_subquery searchTerm i w ∨
  (wants_prs metric ∧ sq = prs_subquery searchTerm i w) ∨
  (wants_issues metric ∧ sq = issues_subquery searchTerm i w).
Proof.
  unfold window_subqueries. rewrite !elem_of_app, list_elem_of_singleton.
  repeat case_decide; rewrite ?list_elem_of_singleton, ?elem_of_nil; tauto.
Qed.

(** No two sub-queries of a batch share an alias. *)
Lemma alias_unique sq sq' :
  sq ∈ subqueries searchTerm timeWindows metric →
  sq' ∈ subqueries searchTerm timeWindows metric →
  sq_alias sq = sq_alias sq' → sq = sq'.
Proof.
  intros (i & w & Hw & Hsq)%elem_of_subqueries
         (j & w' & Hw' & Hsq')%elem_of_subqueries.
  apply window_subquery_shape in Hsq as [->|[[_ ->]|[_ ->]]];
  apply window_subquery_shape in Hsq' as [->|[[_ ->]|[_ ->]]]; simpl; intros Heq.
  - rewrite <- (append_empty_r (periodAlias i)),
            <- (append_empty_r (periodAlias j)) in Heq.
    apply alias_inj in Heq as [-> _]; [|done..]. congruence.
  - by apply alias_inj_plain in Heq as [_ ?].
  - by apply alias_inj_plain in Heq as [_ ?].
  - symmetry in Heq. by apply alias_inj_plain in Heq as [_ ?].
  - apply alias_inj in Heq as [-> _]; [|done..]. congruence.
  - by apply alias_inj in Heq as [_ ?].
  - symmetry in Heq. by apply alias_inj_plain in Heq as [_ ?].
  - by apply alias_inj in Heq as [_ ?].
  - apply alias_inj in Heq as [-> _]; [|done..]. congruence.
Qed.

Lemma answer_lookup count sq :
  sq ∈ subqueries searchTerm timeWindows metric →
  answer count (subqueries searchTerm timeWindows metric) !! sq_alias sq
  = Some (count sq).
Proof.
  intros Hsq. unfold answer. apply elem_of_list_to_map_1'.
  - intros y Hy. apply list_elem_of_fmap in Hy as (sq' & Heq & Hsq').
    injection Heq as Halias ->. f_equal. by apply alias_unique.
  - apply list_elem_of_fmap. by exists sq.
Qed.

Lemma answer_lookup_None count a :
  (∀ sq, sq ∈ subqueries searchTerm timeWindows metric → sq_alias sq ≠ a) →
  answer count (subqueries searchTerm timeWindows metric) !! a = None.
Proof.
  intros Hno. unfold answer. apply not_elem_of_list_to_map_1.
  rewrite <- list_fmap_compose. intros Hin.
  apply list_elem_of_fmap in Hin as (sq & -> & Hsq). by apply (Hno sq).
Qed.

(** X16: Batching is transparent: when the reply answers every sub-query of the
    query string under its alias, the point of each window carries the
    counts of that window's own sub-queries, and only the counts that the
    metric asked for. *)
Theorem batched_counts_reach_their_window
    (formatPeriodLabel : time_window → string) (count : subquery → Z)
    (i : nat) (window : time_window) :
  timeWindows !! i = Some window →
  processTimeSeriesData formatPeriodLabel
    (answer count (subqueries searchTerm timeWindows metric)) timeWindows metric !! i
  = Some {| period := formatPeriodLabel window;
            startDate := tw_start window;
            endDate := tw_end window;
            repositoryCount := Some (count (repo_subquery searchTerm i window));
            prCount :=
              if decide (wants_prs metric)
              then Some (count (prs_subquery searchTerm i window)) else None;
            issueCount :=
              if decide (wants_issues metric)
              then Some (count (issues_subquery searchTerm i window)) else None |}.
Proof.
  intros Hw. unfold processTimeSeriesData.
  rewrite list_lookup_imap, Hw. simpl. f_equal. f_equal.
  - apply (answer_lookup count (repo_subquery searchTerm i window)).
    apply elem_of_subqueries. exists i, window. split; [done|].
    apply window_subquery_shape. by left.
  - case_decide as Hprs.
    + apply (answer_lookup count (prs_subquery searchTerm i window)).
      apply elem_of_subqueries. exists i, window. split; [done|].
      apply window_subquery_shape. right. by left.
    + apply answer_lookup_None.
      intros sq (j & w' & _ & Hsq)%elem_of_subqueries.
      apply window_subquery_shape in Hsq as [->|[[? _]|[_ ->]]]; simpl;
        [|done|]; intros Heq.
      * by apply alias_inj_plain in Heq as [_ ?].
      * by apply alias_inj in Heq as [_ ?].
  - case_decide as Hiss.
    + apply (answer_lookup count (issues_subquery searchTerm i window)).
      apply elem_of_subqueries. exists i, window. split; [done|].
      apply window_subquery_shape. by right; right.
    + apply answer_lookup_None.
      intros sq (j & w' & _ & Hsq)%elem_of_subqueries.
      apply window_subquery_shape in Hsq as [->|[[_ ->]|[? _]]]; simpl;
        [| |done]; intros Heq.
      * by apply alias_inj_plain in Heq as [_ ?].
      * by apply alias_inj in Heq as [_ ?].
Qed.
End Demultiplex.

Lemma batched_counts_reach_their_window_witness :
  processTimeSeriesData tw_start
    (answer (λ sq, Z.of_nat (String.length (sq_query sq)))
            (subqueries "rust" year_2024 "prs")) year_2024 "prs" !! 0
  = Some {| period := "2024-01-01";
            startDate := "2024-01-01";
            endDate := "2024-12-31";
            repositoryCount :=
              Some (Z.of_nat (String.length
                      (sq_query (repo_subquery "rust" 0
                                   (mkTimeWindow "2024-01-01" "2024-12-31")))));
            prCount :=
              if decide (wants_prs "prs")
              then Some (Z.of_nat (String.length
                           (sq_query (prs_subquery "rust" 0
                                        (mkTimeWindow "2024-01-01" "2024-12-31")))))
              else None;
            issueCount :=
              if decide (wants_issues "prs")
              then Some (Z.of_nat (String.length
                           (sq_query (issues_subquery "rust" 0
                                        (mkTimeWindow "2024-01-01" "2024-12-31")))))
              else None |}.
Proof.
  apply (batched_counts_reach_their_window "rust" "prs" year_2024 tw_start
           (λ sq, Z.of_nat (String.length (sq_query sq))) 0
           (mkTimeWindow "2024-01-01" "2024-12-31")).
  reflexivity.
Defined.

Example batch_of_two_windows :
  sq_alias <$> subqueries "rust"
    [mkTimeWindow "2023-01-01" "2023-12-31"; mkTimeWindow "2024-01-01" "2024-12-31"]
    "all"
  = ["period0"; "period0_prs"; "period0_issues";
     "period1"; "period1_prs"; "period1_issues"].
Proof. by vm_compute. Qed.

(** *** Without a token *)

Section NoToken.
Context (formatPeriodLabel : time_window → string).
Context (timeWindows : list time_window) (metric : string).
Context (githubToken : option string).
Context (Hnone : has_token githubToken = None).

Lemma for_each_term_no_token upstream terms n results t :
  t ≠ "__proto__" →
  t ∈ terms ∨ own results !! t = Some (Failure token_required) →
  own (for_each_term formatPeriodLabel upstream terms n timeWindows metric
                     githubToken results) !! t
  = Some (Failure token_required).
Proof using Hnone.
  intros Hname.
  revert n results. induction terms as [|t' terms IH]; intros n results Hin; simpl.
  - destruct Hin as [Hin|?]; [by apply elem_of_nil in Hin | done].
  - unfold fetchTimeSeries. rewrite Hnone. apply IH. rewrite own_assign.
    destruct (decide (t = t')) as [->|Hne].
    + right. by rewrite decide_False by done.
    + case_decide; (destruct Hin as [Hin|?]; [|by right]);
        (apply elem_of_cons in Hin as [?|?]; [done | by left]).
Qed.

Lemma for_each_term_no_token_proto upstream terms n results :
  "__proto__" ∈ terms ∨ proto results = Some (Failure token_required) →
  proto (for_each_term formatPeriodLabel upstream terms n timeWindows metric
                       githubToken results)
  = Some (Failure token_required).
Proof using Hnone.
  revert n results. induction terms as [|t' terms IH]; intros n results Hin; simpl.
  - destruct Hin as [Hin|?]; [by apply elem_of_nil in Hin | done].
  - unfold fetchTimeSeries. rewrite Hnone. apply IH. unfold assign.
    destruct (decide (t' = "__proto__")) as [->|Hne]; simpl; [by right|].
    destruct Hin as [Hin|?]; [|by right].
    apply elem_of_cons in Hin as [?|?]; [by subst | by left].
Qed.

Lemma for_each_term_no_request upstream upstream' terms n results :
  for_each_term formatPeriodLabel upstream terms n timeWindows metric
                githubToken results
  = for_each_term formatPeriodLabel upstream' terms n timeWindows metric
                  githubToken results.
Proof using Hnone.
  revert n results. induction terms as [|t terms IH]; intros n results; simpl;
    [done|].
  unfold fetchTimeSeries. rewrite Hnone. apply IH.
Qed.
End NoToken.

(** X17: Without a token (none, or the empty string) nothing is asked of the
    upstream: the result does not depend on it, and every term but
    [__proto__] gets the same error in its slot; the call itself does not
    fail.  A term [__proto__] gets no slot: its error object becomes the
    prototype of the result. *)
Theorem compareSearchTerms_without_token
    (formatPeriodLabel : time_window → string)
    (upstream upstream' : nat → request → reply)
    (searchTerms : list string) (timeWindows : list time_window)
    (metric : string) (githubToken : option string) :
  has_token githubToken = None →
  let results :=
    compareSearchTerms formatPeriodLabel upstream searchTerms timeWindows
                       metric githubToken in
  results
  = compareSearchTerms formatPeriodLabel upstream' searchTerms timeWindows
                       metric githubToken ∧
  (∀ t, t ∈ searchTerms → t ≠ "__proto__" →
     own results !! t = Some (Failure token_required)) ∧
  ("__proto__" ∈ searchTerms →
     ("__proto__" ∉ Object_keys results) ∧
     proto results = Some (Failure token_required)).
Proof.
  intros Hnone results. subst results. unfold compareSearchTerms.
  split; [|split].
  - by apply for_each_term_no_request.
  - intros t Ht Hname. apply for_each_term_no_token; auto.
  - intros Hin. split.
    + unfold Object_keys. rewrite not_elem_of_dom.
      by rewrite for_each_term_proto_own.
    + apply for_each_term_no_token_proto; auto.
Qed.

Lemma compareSearchTerms_without_token_witness :
  let results :=
    compareSearchTerms tw_start upstream_A_fails ["A"; "__proto__"; "B"]
                       year_2024 "repositories" (Some EmptyString) in
  results
  = compareSearchTerms tw_start (λ _ _, Rejected "offline")
                       ["A"; "__proto__"; "B"] year_2024 "repositories"
                       (Some EmptyString) ∧
  (∀ t, t ∈ ["A"; "__proto__"; "B"] → t ≠ "__proto__" →
     own results !! t = Some (Failure token_required)) ∧
  ("__proto__" ∈ ["A"; "__proto__"; "B"] →
     ("__proto__" ∉ Object_keys results) ∧
     proto results = Some (Failure token_required)).
Proof.
  apply (compareSearchTerms_without_token tw_start upstream_A_fails
           (λ _ _, Rejected "offline") ["A"; "__proto__"; "B"] year_2024
           "repositories" (Some EmptyString)).
  reflexivity.
Defined.

End BatchFacts.

(** ** The windowed H-Index *)

Module WindowedFacts.
Import HIndex HIndexProps Windowed.

Section Loop.
Context (upstream : nat → option string → GraphQL.reply) (p : property).

Lemma windowed_length_accumulate s searchData :
  length (allRepos (accumulate s searchData)) =
  length (allRepos s) + length (GraphQL.nodes searchData).
Proof. unfold accumulate. simpl. by rewrite length_app, length_fmap. Qed.

Lemma loop_below_1100 fuel n s :
  GraphQL.pages_bounded upstream →
  length (allRepos s) < 1000 →
  Forall (λ s', length (allRepos s') < 1100) (snd (loop fuel upstream p n s)).
Proof.
  intros Hb. revert n s. induction fuel as [|fuel IH]; intros n s Hlen; simpl.
  - by destruct (hasNextPage s).
  - destruct (hasNextPage s); [|done].
    destruct (upstream n (afterClause s)) as [sd| | |] eqn:Hup; try done.
    pose proof (Hb _ _ _ Hup) as Hsd.
    pose proof (windowed_length_accumulate s sd) as Hacc.
    unfold cap_reached.
    destruct (Nat.leb_spec 1000 (length (allRepos (accumulate s sd))));
      [apply Forall_singleton; lia|].
    specialize (IH (n + 1) (accumulate s sd) ltac:(lia)).
    destruct (loop fuel upstream p (n + 1) (accumulate s sd)) as [o visited].
    cbn [snd] in *. constructor; [lia | done].
Qed.

Lemma windowed_loop_return fuel n s h :
  fst (loop fuel upstream p n s) = Returned h →
  (snd (loop fuel upstream p n s) = [] ∧ hasNextPage s = false
   ∧ h = calculateHIndex (allRepos s) p) ∨
  (∃ s', last (snd (loop fuel upstream p n s)) = Some s' ∧
         h = calculateHIndex (allRepos s') p ∧
         (hasNextPage s' = false ∨ 1000 ≤ length (allRepos s'))).
Proof.
  revert n s. induction fuel as [|fuel IH]; intros n s; simpl.
  - destruct (hasNextPage s) eqn:Hnext; [done|]. intros [= <-]. by left.
  - destruct (hasNextPage s) eqn:Hnext; [|intros [= <-]; by left].
    destruct (upstream n (afterClause s)) as [sd| | |] eqn:Hup; try done.
    unfold cap_reached.
    destruct (Nat.leb_spec 1000 (length (allRepos (accumulate s sd)))).
    { intros [= <-]. right. exists (accumulate s sd). auto. }
    specialize (IH (n + 1) (accumulate s sd)).
    destruct (loop fuel upstream p (n + 1) (accumulate s sd)) as [o visited].
    cbn [fst snd] in *. intros ->. right.
    destruct (IH eq_refl) as [(-> & Hlast & ->)|(s' & Hlast & -> & Hwhy)].
    + exists (accumulate s sd). auto.
    + exists s'. split; [|done]. by destruct visited.
Qed.
End Loop.

(** X18: The windowed index is not an estimate of what was read: it is the
    index of every node read, and reading goes on until the cursor has no
    next page or 1000 items are held.  With pages of at most 100 nodes
    fewer than 1100 items are ever held. *)
Theorem windowed_hindex_reads_on
    (upstream : nat → option string → GraphQL.reply) (p : property)
    (githubToken : option string) (fuel : nat) :
  GraphQL.pages_bounded upstream →
  Forall (λ s, length (allRepos s) < 1100)
         (snd (calculateWindowedHIndex fuel upstream p githubToken)) ∧
  match calculateWindowedHIndex fuel upstream p githubToken with
  | (Returned h, visited) =>
      ∃ s, last visited = Some s ∧
        h = calculateHIndex (allRepos s) p ∧
        (hasNextPage s = false ∨ 1000 ≤ length (allRepos s))
  | _ => True
  end.
Proof.
  intros Hb. unfold calculateWindowedHIndex.
  destruct (Trend.has_token githubToken); [|by split]. split.
  - apply loop_below_1100; [done | simpl; lia].
  - pose proof (windowed_loop_return upstream p fuel 0 init) as Hret.
    destruct (loop fuel upstream p 0 init) as [[h| |] visited]; [|done..].
    destruct (Hret h eq_refl) as [(_ & Hnext & _)|Hlast]; [done | done].
Qed.

Lemma windowed_hindex_reads_on_witness :
  Forall (λ s, length (allRepos s) < 1100)
         (snd (calculateWindowedHIndex 12 GraphQL.pages_of_100 stargazers_count
                 (Some "ghp_x"))) ∧
  match calculateWindowedHIndex 12 GraphQL.pages_of_100 stargazers_count
          (Some "ghp_x") with
  | (Returned h, visited) =>
      ∃ s, last visited = Some s ∧
        h = calculateHIndex (allRepos s) stargazers_count ∧
        (hasNextPage s = false ∨ 1000 ≤ length (allRepos s))
  | _ => True
  end.
Proof.
  apply (windowed_hindex_reads_on GraphQL.pages_of_100 stargazers_count
           (Some "ghp_x") 12).
  exact GraphQLProps.pages_of_100_bounded.
Defined.

Example windowed_reads_ten_full_pages :
  fst (calculateWindowedHIndex 12 GraphQL.pages_of_100 stargazers_count (Some "ghp_x"))
  = Returned 1000 ∧
  length (snd (calculateWindowedHIndex 12 GraphQL.pages_of_100 stargazers_count
                 (Some "ghp_x"))) = 10.
Proof. by vm_compute. Qed.

End WindowedFacts.

(** ** The service entry points *)

Module ServiceFacts.
Import HIndex HIndexProps Service.

Lemma rest_returns_finish fuel upstream p s r :
  fst (Rest.loop fuel upstream p s) = Rest.Returned r → ∃ s', r = Rest.finish s'.
Proof.
  revert s. induction fuel as [|fuel IH]; intros s; simpl.
  - destruct (Rest.loop_cond s); [done|]. intros [= <-]. eauto.
  - destruct (Rest.loop_cond s); [|intros [= <-]; eauto].
    destruct (upstream (Rest.page s)) as [data| |]; [|done..].
    specialize (IH (Rest.body p s data)).
    by destruct (Rest.loop fuel upstream p (Rest.body p s data)).
Qed.

Lemma returned_hIndex fuel rest graphql p githubToken r :
  fetchAndCalculateHIndex fuel rest graphql p githubToken = Returned r →
  hIndex r = calculateHIndex (repos r) p.
Proof.
  unfold fetchAndCalculateHIndex.
  destruct (Trend.has_token githubToken) as [token|].
  - unfold GraphQL.fetchAndCalculateHIndexGraphQL.
    pose proof (GraphQLFacts.loop_return graphql p fuel 0 GraphQL.init) as Hret.
    destruct (GraphQL.loop fuel graphql p 0 GraphQL.init) as [[r'| |] visited];
      [|done..].
    intros [= <-]. simpl.
    by destruct (Hret r' eq_refl) as [(_ & _ & ->)|(s & _ & -> & _)].
  - unfold Rest.fetchAndCalculateHIndexREST.
    pose proof (RestProps.loop_result fuel rest p Rest.init
                  (RestProps.invariant_init p)) as Hh.
    destruct (Rest.loop fuel rest p Rest.init) as [[r'| |] log]; [|done..].
    intros [= <-]. done.
Qed.

(** X19: Whichever transport served the call, what comes back is consistent:
    [hIndex] is the index of the very list in [repos], it does not exceed
    the number of items, and [totalFetched] does not exceed it either. *)
Theorem fetchAndCalculateHIndex_result
    (fuel : nat) (rest : nat → Rest.reply)
    (graphql : nat → option string → GraphQL.reply)
    (p : property) (githubToken : option string) :
  match fetchAndCalculateHIndex fuel rest graphql p githubToken with
  | Returned r =>
      hIndex r = calculateHIndex (repos r) p ∧
      hIndex r ≤ length (repos r) ∧
      (totalFetched r ≤ Z.of_nat (length (repos r)))%Z
  | _ => True
  end.
Proof.
  unfold fetchAndCalculateHIndex.
  destruct (Trend.has_token githubToken) as [token|].
  - unfold GraphQL.fetchAndCalculateHIndexGraphQL.
    pose proof (GraphQLFacts.loop_return graphql p fuel 0 GraphQL.init) as Hret.
    destruct (GraphQL.loop fuel graphql p 0 GraphQL.init) as [[r| |] visited];
      [|done..].
    destruct (Hret r eq_refl) as [(_ & _ & ->)|(s & _ & -> & _)]; simpl.
    + split; [done|]. split; [apply calculateHIndex_le_length | lia].
    + split; [done|]. split; [apply calculateHIndex_le_length | lia].
  - unfold Rest.fetchAndCalculateHIndexREST.
    pose proof (RestProps.loop_result fuel rest p Rest.init
                  (RestProps.invariant_init p)) as Hh.
    pose proof (rest_returns_finish fuel rest p Rest.init) as Hfin.
    destruct (Rest.loop fuel rest p Rest.init) as [[r| |] log]; [|done..].
    simpl in *. destruct (Hfin r eq_refl) as [s ->]. simpl in *.
    split; [done|]. split; [rewrite Hh; apply calculateHIndex_le_length | lia].
Qed.

(** Without a token the call ends, with ten units of fuel at most. *)
Lemma fetchAndCalculateHIndex_ends_without_token fuel rest graphql p githubToken :
  Trend.has_token githubToken = None →
  10 ≤ fuel →
  fetchAndCalculateHIndex fuel rest graphql p githubToken ≠ OutOfFuel.
Proof.
  intros Hnone Hfuel. unfold fetchAndCalculateHIndex. rewrite Hnone.
  pose proof (RestProps.loop_terminates fuel rest p Rest.init) as Hterm.
  unfold Rest.fetchAndCalculateHIndexREST.
  destruct (Rest.loop fuel rest p Rest.init) as [[r| |] log]; [done..|].
  simpl in Hterm. discriminate Hterm. lia.
Qed.

(** X20: [getTotalCount] throws for exactly the item types it does not know
    (['issues'], which its comment lists, is one of them).  For the known
    ones every failure of the request comes back as the number 0: a non-zero
    count means that the reply was a successful one, without [errors] in the
    case of discussions. *)
Theorem getTotalCount_failures
    (transport : string → option string → count_reply)
    (itemType : string) (githubToken : option string) :
  (itemType ∈ known_item_types ↔
   ∃ n, getTotalCount transport itemType githubToken = inl n) ∧
  (∀ n, getTotalCount transport itemType githubToken = inl n → n ≠ 0%Z →
     ∃ body,
       transport itemType (Trend.has_token githubToken) = CountOk body ∧
       (itemType = "discussions" → has_errors body = false)) ∧
  (itemType = "discussions" → Trend.has_token githubToken = None →
   ∀ transport', getTotalCount transport' itemType githubToken = inl 0%Z).
Proof.
  unfold getTotalCount, known_item_types. split; [|split].
  - rewrite !elem_of_cons, elem_of_nil.
    destruct (decide (itemType = "discussions")) as [->|Hd].
    + split; [intros _|by auto].
      destruct (Trend.has_token githubToken); [|by eauto].
      destruct (transport _ _) as [body| |]; [|by eauto..].
      destruct (has_errors body); eauto.
    + destruct (decide (itemType = "repositories" ∨ itemType = "pull_requests"))
        as [Hk|Hk].
      * split; [intros _|tauto]. destruct (transport _ _); eauto.
      * split; [tauto|]. by intros [n ?].
  - intros n.
    destruct (decide (itemType = "discussions")) as [->|Hd].
    + destruct (Trend.has_token githubToken) as [token|]; [|by intros [= <-]].
      destruct (transport _ _) as [body| |]; [|by intros [= <-]..].
      destruct (has_errors body) eqn:Herr; [by intros [= <-]|]. eauto.
    + destruct (decide (itemType = "repositories" ∨ itemType = "pull_requests"));
        [|done].
      destruct (transport _ _) as [body| |]; [|by intros [= <-]..].
      intros _ _. by exists body.
  - intros -> Hnone transport'. by rewrite decide_True, Hnone by done.
Qed.

Example getTotalCount_issues :
  getTotalCount (λ _ _, CountOk (mkCountBody false None (Some 5%Z))) "issues" None
  = inr "Unknown item type: issues"%string.
Proof. reflexivity. Qed.

End ServiceFacts.

(** ** The report of one search term and the search handler *)

Module AppFacts.
Import HIndex HIndexProps Service ServiceFacts App.

(** *** The top-ten lists *)

(** X21: The top-ten list holds ten items, or all of them when there are fewer;
    it is in descending order of the score; together with the items left
    out it is the list it was taken from, and no item left out scores more
    than an item in it. *)
Theorem top10_are_the_best (p : property) (allRepos : list Repo.t) :
  length (top10 p allRepos) = Nat.min 10 (length allRepos) ∧
  StronglySorted (desc p) (top10 p allRepos) ∧
  ∃ others,
    top10 p allRepos ++ others ≡ₚ allRepos ∧
    ∀ r r', r ∈ top10 p allRepos → r' ∈ others → (get r' p ≤ get r p)%Z.
Proof.
  unfold top10.
  pose proof (sort_desc_sorted p allRepos) as Hsorted.
  rewrite <- (take_drop 10 (sort_desc p allRepos)) in Hsorted.
  apply StronglySorted_app in Hsorted as (Hcross & Htop & _).
  split; [|split; [done|]].
  - rewrite length_take, (Permutation_length (sort_desc_perm p allRepos)). done.
  - exists (drop 10 (sort_desc p allRepos)). split.
    + rewrite take_drop. apply sort_desc_perm.
    + intros r r' Hr Hr'. by apply Hcross.
Qed.

(** *** One term *)

Lemma length_map_set k v m : length (Report.map_set k v m) ≤ S (length m).
Proof.
  induction m as [|[k' v'] m IH]; simpl; [lia|].
  case_decide; simpl; lia.
Qed.

Lemma length_new_Map entries : length (Report.new_Map entries) ≤ length entries.
Proof.
  unfold Report.new_Map.
  induction entries as [|e entries IH] using rev_ind; [done|].
  rewrite foldl_app, length_app. simpl.
  pose proof (length_map_set e.1 e.2
    (foldl (λ m e, Report.map_set e.1 e.2 m) [] entries)). lia.
Qed.

Lemma length_allRepos_le A B :
  length (Report.allRepos A B) ≤ length A + length B.
Proof.
  unfold Report.allRepos, Report.values. rewrite length_fmap.
  etrans; [apply length_new_Map|]. by rewrite length_fmap, length_app.
Qed.

Lemma getTotalCount_known transport itemType token :
  itemType ∈ known_item_types →
  ∃ n, getTotalCount transport itemType token = inl n.
Proof.
  unfold getTotalCount, known_item_types.
  rewrite !elem_of_cons, elem_of_nil. intros Hk.
  destruct (decide (itemType = "discussions")) as [->|Hd].
  - destruct (Trend.has_token token); [|by eauto].
    destruct (transport _ _) as [body| |]; [|by eauto..].
    destruct (has_errors body); eauto.
  - rewrite decide_True by tauto. destruct (transport _ _); eauto.
Qed.

Ltac known_type :=
  unfold known_item_types; rewrite !elem_of_cons; tauto.

(** X22: The report of a term takes each index from its own pass, not from the
    merged list; it counts the merged list, which is no longer than both
    passes together; without a token its number of discussions is 0.  The
    call fails only with one of the two ranked fetches, in their order, and
    never because of a count. *)
Theorem processSearchTermForHIndex_report
    (fuel : nat) (w : world) (token : option string) (term : string) :
  let star := fetchAndCalculateHIndex fuel (rest w term stargazers_count)
                (graphql w term stargazers_count) stargazers_count token in
  let fork := fetchAndCalculateHIndex fuel (rest w term forks_count)
                (graphql w term forks_count) forks_count token in
  match processSearchTermForHIndex fuel w token term with
  | Returned rep =>
      ∃ starResult forkResult,
        star = Returned starResult ∧ fork = Returned forkResult ∧
        starHIndex rep = calculateHIndex (repos starResult) stargazers_count ∧
        forkHIndex rep = calculateHIndex (repos forkResult) forks_count ∧
        analyzedRepos rep
          = length (Report.allRepos (repos starResult) (repos forkResult)) ∧
        analyzedRepos rep ≤ length (repos starResult) + length (repos forkResult) ∧
        (Trend.has_token token = None → totalDiscussions rep = 0%Z)
  | Threw message =>
      star = Threw message ∨ (∃ starResult, star = Returned starResult ∧
                                            fork = Threw message)
  | OutOfFuel =>
      star = OutOfFuel ∨ (∃ starResult, star = Returned starResult ∧
                                        fork = OutOfFuel)
  end.
Proof.
  intros star fork. unfold processSearchTermForHIndex. fold star fork.
  pose proof (returned_hIndex fuel (rest w term stargazers_count)
    (graphql w term stargazers_count) stargazers_count token) as Hstar.
  pose proof (returned_hIndex fuel (rest w term forks_count)
    (graphql w term forks_count) forks_count token) as Hfork.
  fold star in Hstar. fold fork in Hfork.
  destruct star as [starResult|m|]; [|by left..].
  destruct fork as [forkResult|m|]; [|right; eauto..].
  destruct (getTotalCount_known (counts w term) "repositories" token)
    as [a Ha]; [known_type|].
  destruct (getTotalCount_known (counts w term) "pull_requests" token)
    as [b Hb]; [known_type|].
  destruct (getTotalCount_known (counts w term) "discussions" token)
    as [c Hc]; [known_type|].
  rewrite Ha, Hb, Hc. exists starResult, forkResult. simpl.
  repeat split; auto.
  - apply length_allRepos_le.
  - intros Hnone. unfold getTotalCount in Hc.
    rewrite decide_True, Hnone in Hc by done. by injection Hc as <-.
Qed.

(** *** Several terms *)

Lemma processSearchTermForHIndex_ends_without_token fuel w token term :
  Trend.has_token token = None → 10 ≤ fuel →
  processSearchTermForHIndex fuel w token term ≠ OutOfFuel.
Proof.
  intros Hnone Hfuel. unfold processSearchTermForHIndex.
  pose proof (fetchAndCalculateHIndex_ends_without_token fuel
    (rest w term stargazers_count) (graphql w term stargazers_count)
    stargazers_count token Hnone Hfuel) as Hstar.
  pose proof (fetchAndCalculateHIndex_ends_without_token fuel
    (rest w term forks_count) (graphql w term forks_count)
    forks_count token Hnone Hfuel) as Hfork.
  destruct (fetchAndCalculateHIndex _ _ _ stargazers_count _); [|done..].
  destruct (fetchAndCalculateHIndex _ _ _ forks_count _); [|done..].
  destruct (getTotalCount_known (counts w term) "repositories" token)
    as [n1 ->]; [known_type|].
  destruct (getTotalCount_known (counts w term) "pull_requests" token)
    as [n2 ->]; [known_type|].
  destruct (getTotalCount_known (counts w term) "discussions" token)
    as [n3 ->]; [known_type|].
  done.
Qed.

Lemma processSearchTermForHIndex_searchTerm fuel w token term rep :
  processSearchTermForHIndex fuel w token term = Returned rep →
  searchTerm rep = term.
Proof.
  unfold processSearchTermForHIndex.
  destruct (fetchAndCalculateHIndex _ _ _ stargazers_count _); [|done..].
  destruct (fetchAndCalculateHIndex _ _ _ forks_count _); [|done..].
  destruct (getTotalCount _ "repositories" _); [|done].
  destruct (getTotalCount _ "pull_requests" _); [|done].
  destruct (getTotalCount _ "discussions" _); [|done].
  by intros [= <-].
Qed.

Lemma for_each_term_spec fuel w token searchTerms results :
  match for_each_term fuel w token searchTerms results with
  | Returned results' =>
      results' = results ++ omap (kept fuel w token) searchTerms
  | Threw _ => False
  | OutOfFuel =>
      ∃ term, term ∈ searchTerms ∧
              processSearchTermForHIndex fuel w token term = OutOfFuel
  end.
Proof.
  revert results. induction searchTerms as [|term terms IH]; intros results; simpl.
  - by rewrite app_nil_r.
  - unfold kept at 1.
    destruct (processSearchTermForHIndex fuel w token term) as [rep|m|] eqn:Hterm.
    + specialize (IH (results ++ [rep])).
      destruct (for_each_term fuel w token terms (results ++ [rep]));
        [by rewrite IH, <- app_assoc | done |].
      destruct IH as (t & Ht & Hout). exists t. split; [by right | done].
    + specialize (IH results).
      destruct (for_each_term fuel w token terms results); [done | done |].
      destruct IH as (t & Ht & Hout). exists t. split; [by right | done].
    + exists term. split; [by left | done].
Qed.

Lemma searchTerm_omap_kept fuel w token searchTerms :
  searchTerm <$> omap (kept fuel w token) searchTerms `sublist_of` searchTerms.
Proof.
  induction searchTerms as [|term terms IH]; simpl; [done|].
  unfold kept at 1.
  destruct (processSearchTermForHIndex fuel w token term) as [rep|m|] eqn:Hterm.
  - rewrite fmap_cons, (processSearchTermForHIndex_searchTerm _ _ _ _ _ Hterm).
    by apply sublist_skip.
  - by apply sublist_cons.
  - by apply sublist_cons.
Qed.

(** X23: With two terms or more a search never shows an error for the H-Index
    part: the reports are those of the terms that succeeded, in the order
    of the terms, and a term that failed is simply missing from them; the
    single result is cleared.  The run can only fail to end on a term whose
    own analysis does not end. *)
Theorem handleSearch_skips_failing_terms
    (fuel : nat) (w : world) (token : option string)
    (searchTerms : list string) (v : hindex_view) :
  2 ≤ length searchTerms →
  match hindex_analysis fuel w token searchTerms v with
  | Returned v' =>
      error v' = None ∧ hIndexResults v' = None ∧
      multiHIndexResults v' = omap (kept fuel w token) searchTerms ∧
      searchTerm <$> multiHIndexResults v' `sublist_of` searchTerms
  | Threw _ => False
  | OutOfFuel =>
      ∃ term, term ∈ searchTerms ∧
              processSearchTermForHIndex fuel w token term = OutOfFuel
  end.
Proof.
  intros Hlen. unfold hindex_analysis.
  destruct searchTerms as [|t1 [|t2 terms]]; [simpl in Hlen; lia..|].
  pose proof (for_each_term_spec fuel w token (t1 :: t2 :: terms) []) as Hspec.
  destruct (for_each_term fuel w token (t1 :: t2 :: terms) []) as [results|m|];
    [|done..].
  rewrite app_nil_l in Hspec. subst results. cbn [error hIndexResults multiHIndexResults].
  repeat split. apply searchTerm_omap_kept.
Qed.

Lemma handleSearch_skips_failing_terms_witness :
  match hindex_analysis 10 offline None ["A"; "B"] (mkView None [] None) with
  | Returned v' =>
      error v' = None ∧ hIndexResults v' = None ∧
      multiHIndexResults v' = omap (kept 10 offline None) ["A"; "B"] ∧
      searchTerm <$> multiHIndexResults v' `sublist_of` ["A"; "B"]
  | Threw _ => False
  | OutOfFuel =>
      ∃ term, term ∈ ["A"; "B"] ∧
              processSearchTermForHIndex 10 offline None term = OutOfFuel
  end.
Proof.
  apply (handleSearch_skips_failing_terms 10 offline None ["A"; "B"]
           (mkView None [] None)).
  simpl. lia.
Defined.

(** With one term the same failure is shown: it becomes the error of the
    view, and the results of the earlier search stay as they were. *)
Example one_failing_term_is_reported :
  hindex_analysis 10 offline None ["A"]
    (mkView None [] None)
  = Returned (mkView None [] (Some "offline")) ∧
  hindex_analysis 10 offline None ["A"; "B"] (mkView None [] None)
  = Returned (mkView None [] None).
Proof. by vm_compute. Qed.

(** *** The list of search terms *)

Lemma push_new_spec newTerms term :
  NoDup newTerms →
  NoDup (push_new newTerms term) ∧
  newTerms `prefix_of` push_new newTerms term ∧
  (∀ t, t ∈ push_new newTerms term ↔ t ∈ newTerms ∨ t = term).
Proof.
  intros Hnd. unfold push_new. case_decide as Hin.
  - split; [done|]. split; [done|]. intros t. split; [by left|].
    by intros [?| ->].
  - split; [|split].
    + apply NoDup_app. split; [done|]. split; [|apply NoDup_singleton].
      intros t Ht ->%list_elem_of_singleton. done.
    + by apply prefix_app_r.
    + intros t. by rewrite elem_of_app, list_elem_of_singleton.
Qed.

Lemma add_terms_spec searchTerms terms :
  NoDup searchTerms →
  NoDup (add_terms searchTerms terms) ∧
  searchTerms `prefix_of` add_terms searchTerms terms ∧
  (∀ t, t ∈ add_terms searchTerms terms ↔ t ∈ searchTerms ∨ t ∈ terms).
Proof.
  unfold add_terms. revert searchTerms.
  induction terms as [|term terms IH]; intros searchTerms Hnd; simpl.
  - split; [done|]. split; [done|]. intros t. rewrite elem_of_nil. tauto.
  - destruct (push_new_spec searchTerms term Hnd) as (Hnd' & Hpre & Hmem).
    destruct (IH _ Hnd') as (Hnd'' & Hpre' & Hmem').
    split; [done|]. split; [by etrans|].
    intros t. rewrite Hmem', Hmem, elem_of_cons. tauto.
Qed.

Lemma add_terms_present searchTerms terms :
  (∀ t, t ∈ terms → t ∈ searchTerms) → add_terms searchTerms terms = searchTerms.
Proof.
  unfold add_terms. induction terms as [|term terms IH]; intros Hall; simpl; [done|].
  unfold push_new at 2. rewrite decide_True by (apply Hall; by left).
  apply IH. intros t Ht. apply Hall. by right.
Qed.

(** X24: Adding terms never duplicates one: a list of distinct terms stays a
    list of distinct terms, the terms that were there keep their places at
    the front, the list holds exactly the old and the new terms, and adding
    the same terms again changes nothing. *)
Theorem addSearchTerm_keeps_terms_distinct (searchTerms terms : list string) :
  NoDup searchTerms →
  NoDup (add_terms searchTerms terms) ∧
  searchTerms `prefix_of` add_terms searchTerms terms ∧
  (∀ t, t ∈ add_terms searchTerms terms ↔ t ∈ searchTerms ∨ t ∈ terms) ∧
  add_terms (add_terms searchTerms terms) terms = add_terms searchTerms terms.
Proof.
  intros Hnd. destruct (add_terms_spec searchTerms terms Hnd) as (? & ? & Hmem).
  repeat split; try done; try apply Hmem.
  apply add_terms_present. intros t Ht. apply Hmem. by right.
Qed.

Lemma addSearchTerm_keeps_terms_distinct_witness :
  NoDup (add_terms ["rust"] ["go"; "rust"; "go"]) ∧
  ["rust"] `prefix_of` add_terms ["rust"] ["go"; "rust"; "go"] ∧
  (∀ t, t ∈ add_terms ["rust"] ["go"; "rust"; "go"]
        ↔ t ∈ ["rust"] ∨ t ∈ ["go"; "rust"; "go"]) ∧
  add_terms (add_terms ["rust"] ["go"; "rust"; "go"]) ["go"; "rust"; "go"]
  = add_terms ["rust"] ["go"; "rust"; "go"].
Proof.
  apply (addSearchTerm_keeps_terms_distinct ["rust"] ["go"; "rust"; "go"]).
  apply NoDup_singleton.
Defined.

(** X25: Removing a term that was just added to a list that did not have it
    gives the list back, and a removed term is gone, wherever and however
    often it stood. *)
Theorem removeSearchTerm_undoes_add (searchTerms : list string) (term : string) :
  (term ∉ removeSearchTerm searchTerms term) ∧
  ((term ∉ searchTerms) →
   removeSearchTerm (add_terms searchTerms [term]) term = searchTerms).
Proof.
  unfold removeSearchTerm. split.
  - intros Hin. apply list_elem_of_filter in Hin as [Hne _]. done.
  - intros Hnin. unfold add_terms. simpl. unfold push_new.
    rewrite decide_False by done. rewrite filter_app.
    rewrite filter_cons_False, filter_nil, app_nil_r by (intros Hne; by apply Hne).
    induction searchTerms as [|t ts IH]; [done|].
    apply not_elem_of_cons in Hnin as [Hne Hnin].
    rewrite filter_cons_True by done. f_equal. by apply IH.
Qed.

End AppFacts.

(** ** The settings in the URL *)

Module UrlSharingFacts.
Import UrlSharing.

Section Platform.
Context (parseInt : string → option Z) (toString : Z → string) (currentYear : Z).

Lemma truthy_true s : s ≠ EmptyString → truthy s = true.
Proof. intros. unfold truthy. by rewrite bool_decide_eq_true. Qed.

Lemma truthy_number_true z : z ≠ 0%Z → truthy_number z = true.
Proof. intros. unfold truthy_number. by rewrite bool_decide_eq_true. Qed.

Lemma string_or_bool b d : string_or (Some (bool_toString b)) d = bool_toString b.
Proof. by destruct b. Qed.

Lemma bool_toString_true b : bool_decide (Some (bool_toString b) = Some "true") = b.
Proof. by destruct b. Qed.

Lemma string_or_empty d : string_or (Some EmptyString) d = string_or None d.
Proof. done. Qed.

Lemma string_or_truthy s d : truthy s = true → string_or (Some s) d = s.
Proof. unfold string_or. by intros ->. Qed.

Lemma number_or_truthy z d : truthy_number z = true → number_or (Some z) d = z.
Proof. unfold number_or. by intros ->. Qed.

Lemma truthy_false s : truthy s = false → s = EmptyString.
Proof.
  unfold truthy. rewrite bool_decide_eq_false. intros Hs.
  by destruct (decide (s = EmptyString)).
Qed.

Lemma truthy_number_false z : truthy_number z = false → z = 0%Z.
Proof. unfold truthy_number. rewrite bool_decide_eq_false. lia. Qed.

Ltac get_params :=
  repeat first [ rewrite lookup_insert_eq
               | rewrite lookup_insert_ne by done
               | rewrite lookup_empty ].

(** X26: A shared URL restores the settings it was made from, when trend
    analysis is shown and no setting is empty or zero, and the platform
    reads the years back from their strings. *)
Theorem shared_url_restores_settings (s : settings) :
  complete s →
  showTrendAnalysis s = true →
  parseInt (toString (startYear s)) = Some (startYear s) →
  parseInt (toString (endYear s)) = Some (endYear s) →
  parseUrlParams parseInt currentYear (generateShareableUrl toString s)
  = as_params s.
Proof.
  intros (Hterm & Hdate & Hstart & Hend & Hgran & Hmetric) Htrend Hps Hpe.
  unfold generateShareableUrl, parseUrlParams, as_params.
  rewrite Htrend, !string_or_bool, !truthy_true, !truthy_number_true by done.
  cbv beta iota zeta. get_params. cbn [mbind option_bind].
  rewrite Hps, Hpe, !string_or_truthy, !number_or_truthy
    by (by apply truthy_true || by apply truthy_number_true).
  by rewrite !bool_toString_true.
Qed.

(** X27: When trend analysis is not shown the URL keeps neither years nor
    granularity nor metric: whatever they were, reading the URL gives the
    defaults, three years back from the current year.  The two flags are
    always kept, and an empty date limit comes back as 2023-01-01. *)
Theorem url_without_trend_drops_trend_settings
    (searchTerm dateLimit : string) (startYear endYear : Z)
    (granularity metric : string) (showHIndexAnalysis showTrendAnalysis : bool) :
  let back := parseUrlParams parseInt currentYear
                (updateSearchUrl toString searchTerm dateLimit startYear endYear
                   granularity metric showHIndexAnalysis showTrendAnalysis) in
  p_showHIndexAnalysis back = showHIndexAnalysis ∧
  p_showTrendAnalysis back = showTrendAnalysis ∧
  (dateLimit = EmptyString → p_dateLimit back = "2023-01-01") ∧
  (searchTerm = EmptyString → p_searchTerm back = None) ∧
  (showTrendAnalysis = false →
   p_startYear back = (currentYear - 3)%Z ∧ p_endYear back = currentYear ∧
   p_granularity back = "year" ∧ p_metric back = "repositories").
Proof.
  unfold updateSearchUrl, parseUrlParams. cbn [p_showHIndexAnalysis
    p_showTrendAnalysis p_dateLimit p_searchTerm p_startYear p_endYear
    p_granularity p_metric].
  split; [|split; [|split; [|split]]].
  - get_params. apply bool_toString_true.
  - get_params. apply bool_toString_true.
  - intros ->. destruct (truthy searchTerm), showTrendAnalysis; by get_params.
  - intros ->. destruct (truthy dateLimit), showTrendAnalysis; by get_params.
  - intros ->. destruct (truthy searchTerm), (truthy dateLimit); by get_params.
Qed.

(** X28: The URL in the address bar and the shared URL need not be the same,
    but they read back as the same settings. *)
Theorem shared_url_reads_as_address_bar (s : settings) :
  parseInt (toString 0%Z) = Some 0%Z →
  parseUrlParams parseInt currentYear (generateShareableUrl toString s)
  = parseUrlParams parseInt currentYear
      (updateSearchUrl toString (searchTerm s) (dateLimit s) (startYear s)
         (endYear s) (granularity s) (metric s) (showHIndexAnalysis s)
         (showTrendAnalysis s)).
Proof.
  intros Hzero. unfold generateShareableUrl, updateSearchUrl, parseUrlParams.
  rewrite !string_or_bool.
  destruct (truthy (searchTerm s)), (truthy (dateLimit s)),
    (showTrendAnalysis s); cbv beta iota zeta; get_params; try done.
  all: destruct (truthy_number (startYear s)) eqn:Hs;
         [|apply truthy_number_false in Hs; rewrite Hs].
  all: destruct (truthy_number (endYear s)) eqn:He;
         [|apply truthy_number_false in He; rewrite He].
  all: destruct (truthy (granularity s)) eqn:Hg;
         [|apply truthy_false in Hg; rewrite Hg].
  all: destruct (truthy (metric s)) eqn:Hm;
         [|apply truthy_false in Hm; rewrite Hm].
  all: get_params; cbn [mbind option_bind]; rewrite ?Hzero; done.
Qed.

End Platform.

Lemma shared_url_restores_settings_witness :
  parseUrlParams parseInt_decimal 2026 (generateShareableUrl pretty search_2024)
  = as_params search_2024.
Proof.
  apply (shared_url_restores_settings parseInt_decimal pretty 2026 search_2024).
  - unfold complete. simpl. repeat split; done.
  - reflexivity.
  - reflexivity.
  - reflexivity.
Defined.

Lemma shared_url_reads_as_address_bar_witness :
  parseUrlParams parseInt_decimal 2026 (generateShareableUrl pretty search_2024)
  = parseUrlParams parseInt_decimal 2026
      (updateSearchUrl pretty (searchTerm search_2024) (dateLimit search_2024)
         (startYear search_2024) (endYear search_2024) (granularity search_2024)
         (metric search_2024) (showHIndexAnalysis search_2024)
         (showTrendAnalysis search_2024)).
Proof.
  apply (shared_url_reads_as_address_bar parseInt_decimal pretty 2026 search_2024).
  reflexivity.
Defined.

End UrlSharingFacts.
